(** * playground-sync: the prompt relay

  A shallow embedding of the relay server of [plugins/playground-sync]
  ([store.ts], [server.ts], [burst.ts], [cli.ts]) and the properties of
  its queue, its HTTP ingestion endpoint, its MCP tool surface and its
  batch ("burst") runner.

  Conventions.
  - JavaScript runs one handler at a time: a handler (an HTTP request
    whose body has been received, an MCP tool call, one iteration of a
    polling loop) runs to its next [await] without interleaving.  Such a
    run is called a _turn_ here, and a model function describes exactly
    one turn unless said otherwise.
  - [Date.now()] and [Math.random()] are inputs supplied by the
    environment at each call site.
  - JavaScript numbers are IEEE 754 doubles ([float]), and the
    arithmetic of the program on them ([Math.min], [+], [*], [<]) is
    the arithmetic of doubles.  The clock readings the store renders
    into ids are integers ([Z], milliseconds).
  - A template literal that cannot render a value throws a [TypeError];
    rendering is therefore partial ([option]) and every handler shows
    what it has done before the throw.  [console.log]/[console.error]
    output itself is not modelled, but the template literals of the
    logging calls are, since they can throw.
  - A handler of the HTTP listener that throws outside a [try] ends the
    process (an unhandled rejection); so does [burstLoop] when it throws
    ([cli.ts] exits with status 1); no turn runs after that. *)

From Stdlib Require Import Ascii FloatClass PrimFloat Uint63.
From Stdlib Require FloatOps SpecFloat FloatAxioms.
From stdpp Require Import base list strings pretty.

Set Warnings "-register-all".

Open Scope string_scope.
Open Scope Z_scope.
Open Scope list_scope.

(** ** JavaScript values *)

Module Js.

(** The values [JSON.parse] can produce, and [undefined].  The fields of
    an object are listed once per key, as the parser leaves them. *)
Inductive JsVal : Type :=
| JUndefined
| JNull
| JBool (b : bool)
| JNum (x : float)
| JStr (s : string)
| JArr (vs : list JsVal)
| JObj (fields : list (string * JsVal)).

(** What the program uses of its environment but does not define: the
    services of the JavaScript runtime, and the [verbose] flag of the
    [ServerConfig] the process was started with. *)
Class Runtime := {
  (** [JSON.parse(body)]; [None] when it throws a [SyntaxError]. *)
  JSON_parse : string → option JsVal;
  (** [String(n)] for a number [n]. *)
  Number_toString : float → string;
  (** [new Date(ms).toLocaleTimeString()]. *)
  toLocaleTimeString : Z → string;
  (** [s.length]: the number of UTF-16 code units of [s]. *)
  String_length : string → nat;
  (** [new URL(u, `http://localhost:${port}`).pathname]; [None] when
      the constructor throws (as it does for [//]). *)
  URL_pathname : string → option string;
  (** [config.verbose]. *)
  verbose : bool
}.

(** [typeof v === "string"] and [typeof v === "number"]. *)
Definition is_string (v : JsVal) : bool :=
  match v with JStr _ => true | _ => false end.
Definition is_number (v : JsVal) : bool :=
  match v with JNum _ => true | _ => false end.

(** [ToBoolean]: [undefined], [null], [false], the zeros, [NaN] and the
    empty string are falsy. *)
Definition truthy (v : JsVal) : bool :=
  match v with
  | JUndefined | JNull => false
  | JBool b => b
  | JNum x => negb ((x =? 0)%float || is_nan x)
  | JStr s => negb (bool_decide (s = EmptyString))
  | JArr _ | JObj _ => true
  end.

(** [a || b]. *)
Definition or (a b : JsVal) : JsVal := if truthy a then a else b.

Fixpoint assoc (k : string) (fields : list (string * JsVal)) : JsVal :=
  match fields with
  | [] => JUndefined
  | (k', v) :: rest => if bool_decide (k' = k) then v else assoc k rest
  end.

(** The object has an own property [k]. *)
Definition has_key (k : string) (fields : list (string * JsVal)) : bool :=
  bool_decide (k ∈ fields.*1).

(** [v.k] for a value that is neither [null] nor [undefined]: an own
    property of an object, [undefined] on primitives and arrays (the
    program only reads the keys [prompt], [url], [pathname] and
    [timeout_seconds], which no prototype defines). *)
Definition get (v : JsVal) (k : string) : JsVal :=
  match v with
  | JObj fields => assoc k fields
  | _ => JUndefined
  end.

(** [v?.k]. *)
Definition get_opt (v : JsVal) (k : string) : JsVal :=
  match v with
  | JUndefined | JNull => JUndefined
  | _ => get v k
  end.

(** The character [c] occurs in [s]. *)
Fixpoint occurs (c : ascii) (s : string) : Prop :=
  match s with
  | EmptyString => False
  | String c' s' => c' = c ∨ occurs c s'
  end.

Fixpoint join (sep : string) (parts : list string) : string :=
  match parts with
  | [] => EmptyString
  | [s] => s
  | s :: rest => s +:+ sep +:+ join sep rest
  end.

(** [`${v}`]: the string a template literal renders a value to, [None]
    when it throws.  An object is rendered by the method its [toString]
    property holds: [Object.prototype.toString] unless the object has
    an own property of that name, which, coming from JSON, is never a
    function, so that the conversion throws a [TypeError] ([valueOf]
    returns the object itself and does not help).  An array joins the
    renderings of its elements, left to right. *)
Fixpoint toString `{Runtime} (v : JsVal) : option string :=
  match v with
  | JUndefined => Some "undefined"
  | JNull => Some "null"
  | JBool true => Some "true"
  | JBool false => Some "false"
  | JNum x => Some (Number_toString x)
  | JStr s => Some s
  | JArr vs =>
      join "," <$>
        (fix elements (l : list JsVal) : option (list string) :=
           match l with
           | [] => Some []
           | x :: l' =>
               match match x with
                     | JUndefined | JNull => Some EmptyString
                     | _ => toString x
                     end with
               | Some s => cons s <$> elements l'
               | None => None
               end
           end) vs
  | JObj fields =>
      if has_key "toString" fields then None else Some "[object Object]"
  end.

(** The template literal renders [v] without throwing. *)
Definition renders `{Runtime} (v : JsVal) : bool :=
  match toString v with Some _ => true | None => false end.

(** The message of the [TypeError] of a conversion that fails. *)
Definition type_error : string := "Cannot convert object to primitive value".

(** [Math.min(a, b)]: [NaN] if either is, and the negative zero is the
    smaller of the two zeros. *)
Definition Math_min (a b : float) : float :=
  if is_nan a || is_nan b then nan
  else if (b <? a)%float then b
  else if (a <? b)%float then a
  else match classify b with NZero => b | _ => a end.

(** The number [n] as JavaScript holds it (exact for the counts a
    process can reach). *)
Definition number_of_nat (n : nat) : float :=
  of_uint63 (Uint63.of_Z (Z.of_nat n)).

End Js.
Import Js.

(** The line feed of the template literals. *)
Definition nl : string := String "010"%char EmptyString.

(** ** [types.ts] and [store.ts]: the queue *)

(** [PlaygroundPrompt].  [prompt] is a string by the check of the HTTP
    handler; [url] and [pathname] are declared [string] but hold whatever
    the request body carried, so they are values here. *)
Record PlaygroundPrompt : Type := {
  id : string;
  prompt : string;
  url : JsVal;
  pathname : JsVal;
  timestamp : Z
}.

(** [Omit<PlaygroundPrompt, "id" | "timestamp">], the argument of [add]. *)
Record NewPrompt : Type := {
  new_prompt : string;
  new_url : JsVal;
  new_pathname : JsVal
}.

(** What [add] reads from the environment, in the order it reads it. *)
Record AddEnv : Type := {
  (** [Date.now()] inside the id. *)
  clock_id : Z;
  (** [Math.random().toString(36)]. *)
  random36 : string;
  (** [Date.now()] of the [timestamp] field. *)
  clock_ts : Z
}.

Module PromptStore.

(** [private prompts: PlaygroundPrompt[]]. *)
Definition t : Type := list PlaygroundPrompt.

Definition empty : t := [].

(** [s.slice(2, 8)]. *)
Definition slice_2_8 (s : string) : string := String.substring 2 6 s.

(** [`p_${Date.now()}_${Math.random().toString(36).slice(2, 8)}`]. *)
Definition fresh_id (e : AddEnv) : string :=
  "p_" +:+ pretty (clock_id e) +:+ "_" +:+ slice_2_8 (random36 e).

Definition entry (p : NewPrompt) (e : AddEnv) : PlaygroundPrompt :=
  {| id := fresh_id e;
     prompt := new_prompt p;
     url := new_url p;
     pathname := new_pathname p;
     timestamp := clock_ts e |}.

(** [add]: push at the back, return the entry. *)
Definition add (p : NewPrompt) (e : AddEnv) (st : t) : t * PlaygroundPrompt :=
  (st ++ [entry p e], entry p e).

(** [getOldest]: [this.prompts[0]]. *)
Definition getOldest (st : t) : option PlaygroundPrompt := head st.

(** [getAll]: a copy. *)
Definition getAll (st : t) : list PlaygroundPrompt := st.

(** [count]. *)
Definition count (st : t) : nat := length st.

(** [clear]. *)
Definition clear (st : t) : t := [].

(** [removeOldest]: [this.prompts.shift()]. *)
Definition removeOldest (st : t) : t * option PlaygroundPrompt :=
  match st with
  | [] => ([], None)
  | p :: rest => (rest, Some p)
  end.

(** A call of one of the methods. *)
Inductive Op : Type :=
| OpAdd (p : NewPrompt) (e : AddEnv)
| OpGetOldest
| OpGetAll
| OpCount
| OpClear
| OpRemoveOldest.

(** What a run of calls has produced so far: the store, the records
    [add] created and the records [removeOldest] returned, both in
    call order. *)
Record Run : Type := {
  store : t;
  created : list PlaygroundPrompt;
  popped : list PlaygroundPrompt
}.

Definition start (st : t) : Run :=
  {| store := st; created := []; popped := [] |}.

Definition step (r : Run) (o : Op) : Run :=
  match o with
  | OpAdd p e =>
      let '(st', x) := add p e (store r) in
      {| store := st'; created := created r ++ [x]; popped := popped r |}
  | OpGetOldest | OpGetAll | OpCount => r
  | OpClear =>
      {| store := clear (store r); created := created r; popped := popped r |}
  | OpRemoveOldest =>
      let '(st', x) := removeOldest (store r) in
      {| store := st';
         created := created r;
         popped := popped r ++ match x with Some p => [p] | None => [] end |}
  end.

Definition run (ops : list Op) (r : Run) : Run := foldl step r ops.

(** The calls the FIFO property speaks of: every method but [clear]. *)
Definition no_clear (o : Op) : bool :=
  match o with OpClear => false | _ => true end.

(** The two environment readings the id is built from. *)
Definition id_key (e : AddEnv) : Z * string :=
  (clock_id e, slice_2_8 (random36 e)).

(** The id as a function of them. *)
Definition id_of_key (k : Z * string) : string :=
  "p_" +:+ pretty k.1 +:+ "_" +:+ k.2.

(** The environments of the [add] calls of a run, in call order. *)
Definition add_envs (ops : list Op) : list AddEnv :=
  flat_map (fun o => match o with OpAdd _ e => [e] | _ => [] end) ops.

(** Everything that ever entered the queue is what left it by
    [removeOldest] followed by what is still in it. *)
Definition fifo_invariant (st0 : t) (r : Run) : Prop :=
  st0 ++ created r = popped r ++ store r.

(** As many [removeOldest] calls as the store holds records. *)
Definition drain (st : t) : list Op := replicate (length st) OpRemoveOldest.

End PromptStore.

(** ** The event channel ([sseClients], [broadcastEvent])

    [server.ts] and [burst.ts] each declare their own [sseClients] and
    [broadcastEvent] with the same text; a process runs one of the two
    modules, so one definition serves both. *)

(** An open [/events] response, named by its connection. *)
Definition Client : Type := nat.

(** The frame [`event: ${event}\ndata: ${JSON.stringify(data)}\n\n`],
    kept as its two components. *)
Record SseMessage : Type := {
  event : string;
  data : list (string * JsVal)
}.

(** The state the handlers share: the queue, the [Set] of subscribed
    responses in insertion order, and every frame written to a client so
    far, oldest first. *)
Record World : Type := {
  queue : PromptStore.t;
  sseClients : list Client;
  sent : list (Client * SseMessage)
}.

Definition set_queue (q : PromptStore.t) (w : World) : World :=
  {| queue := q; sseClients := sseClients w; sent := sent w |}.

Definition set_clients (cs : list Client) (w : World) : World :=
  {| queue := queue w; sseClients := cs; sent := sent w |}.

(** [client.write(message)]. *)
Definition write (c : Client) (m : SseMessage) (w : World) : World :=
  {| queue := queue w; sseClients := sseClients w; sent := sent w ++ [(c, m)] |}.

(** The frames one [broadcastEvent] writes: one per subscribed client. *)
Definition frames (m : SseMessage) (cs : list Client) : list (Client * SseMessage) :=
  map (fun c => (c, m)) cs.

(** [broadcastEvent(event, data)]. *)
Definition broadcastEvent (ev : string) (d : list (string * JsVal)) (w : World) : World :=
  foldl (fun w c => write c {| event := ev; data := d |} w) w (sseClients w).

(** [broadcastEvent("status", { status })]. *)
Definition status_data (s : string) : list (string * JsVal) := [("status", JStr s)].

Definition broadcastStatus (s : string) (w : World) : World :=
  broadcastEvent "status" (status_data s) w.

(** [sseClients.add(res)] and [sseClients.delete(res)]. *)
Definition clients_add (c : Client) (cs : list Client) : list Client :=
  if bool_decide (c ∈ cs) then cs else cs ++ [c].

Definition clients_delete (c : Client) (cs : list Client) : list Client :=
  filter (fun c' => c' ≠ c) cs.

(** ** HTTP *)

Record Request : Type := {
  method : string;
  (** [req.url], as received. *)
  req_url : string;
  (** The concatenated [data] chunks. *)
  body : string
}.

Inductive Response : Type :=
(** [writeHead(status)] and [end(JSON.stringify(body))]. *)
| Reply (status : Z) (json : option JsVal)
(** [writeHead(200, text/event-stream)], left open. *)
| EventStream
(** No response: the listener threw, which ends the process. *)
| Crash.

Definition is_crash (a : Response) : bool :=
  match a with Crash => true | _ => false end.

Definition error_reply (msg : string) : Response :=
  Reply 400 (Some (JObj [("error", JStr msg)])).

(** [new URL(req.url || "/", `http://localhost:${port}`).pathname]. *)
Definition route `{Runtime} (r : Request) : option string :=
  URL_pathname (if bool_decide (req_url r = EmptyString) then "/" else req_url r).

(** The string held by a value known to be a string. *)
Definition string_of (v : JsVal) : string :=
  match v with JStr s => s | _ => EmptyString end.

(** The prompt of a body that parses to JSON with a non-empty string
    [prompt] field, in the words of the specification; [None] for every
    other body. *)
Definition accepted_prompt (parsed : option JsVal) : option string :=
  match parsed with
  | Some (JObj fields) =>
      match assoc "prompt" fields with
      | JStr s => if bool_decide (s = EmptyString) then None else Some s
      | _ => None
      end
  | _ => None
  end.

(** The record [POST /prompt] queues for a parsed body. *)
Definition submitted (payload : JsVal) (e : AddEnv) : PlaygroundPrompt :=
  PromptStore.entry
    {| new_prompt := string_of (get payload "prompt");
       new_url := Js.or (get payload "url") (JStr EmptyString);
       new_pathname := Js.or (get payload "pathname") (JStr "/") |} e.

(** ** [server.ts]: interactive mode *)

Module Server.
Section WithRuntime.
Context `{Runtime}.

(** The [end] handler of [POST /prompt]. *)
Definition post_prompt (b : string) (e : AddEnv) (w : World) : World * Response :=
  match JSON_parse b with
  | None => (w, error_reply "Invalid JSON")
  | Some JUndefined | Some JNull =>
      (* destructuring throws a TypeError, which the catch answers *)
      (w, error_reply "Invalid JSON")
  | Some payload =>
      let prompt := get payload "prompt" in
      let pageUrl := get payload "url" in
      let pagePath := get payload "pathname" in
      if negb (truthy prompt) || negb (is_string prompt) then
        (w, error_reply "prompt is required")
      else
        let '(q, entry) :=
          PromptStore.add
            {| new_prompt := string_of prompt;
               new_url := Js.or pageUrl (JStr EmptyString);
               new_pathname := Js.or pagePath (JStr "/") |}
            e (queue w) in
        let w := set_queue q w in
        (* if (verbose) console.error(`... ${pagePath} (${prompt.length} chars)`) *)
        if verbose && negb (renders pagePath) then
          (* the template literal throws, and the catch answers *)
          (w, error_reply "Invalid JSON")
        else
          let w := broadcastEvent "status"
                     [("status", JStr "received"); ("id", JStr (id entry))] w in
          (w, Reply 200 (Some (JObj [("success", JBool true);
                                      ("id", JStr (id entry))])))
  end.

(** The request listener of [createHttpServer], run when the request
    (and, for [POST /prompt], its body) has arrived on connection [c]. *)
Definition handle (c : Client) (r : Request) (e : AddEnv) (w : World)
  : World * Response :=
  if bool_decide (method r = "OPTIONS") then (w, Reply 204 None)
  else
    match route r with
    | None => (w, Crash)
    | Some path =>
        if bool_decide (method r = "GET") && bool_decide (path = "/health") then
          (w, Reply 200 (Some (JObj
             [("status", JStr "ok");
              ("pending_prompts", JNum (number_of_nat (PromptStore.count (queue w))))])))
        else if bool_decide (method r = "GET") && bool_decide (path = "/events") then
          let w := write c {| event := "connected"; data := [("status", JStr "ok")] |} w in
          (set_clients (clients_add c (sseClients w)) w, EventStream)
        else if bool_decide (method r = "POST") && bool_decide (path = "/prompt") then
          post_prompt (body r) e w
        else (w, Reply 404 (Some (JObj [("error", JStr "Not found")])))
    end.

(** [req.on("close")] of an [/events] request. *)
Definition close (c : Client) (w : World) : World :=
  set_clients (clients_delete c (sseClients w)) w.

(** The text both [playground_get_prompt] and [playground_watch] build
    for a record; [None] when the template literal throws. *)
Definition prompt_text (p : PlaygroundPrompt) : option string :=
  source ← toString (Js.or (url p) (pathname p));
  Some ("# Playground Prompt" +:+ nl +:+ nl +:+
        "**Source:** " +:+ source +:+ nl +:+
        "**Received:** " +:+ toLocaleTimeString (timestamp p) +:+ nl +:+ nl +:+
        "---" +:+ nl +:+ nl +:+ prompt p).

Definition no_prompt_text : string := "No pending prompts from playgrounds.".

Definition timeout_text : string :=
  "Watch timed out â€” no prompts received. The user may not have clicked 'Send to Claude' yet.".

(** What a tool call produces: the text of its single content item, or
    the error it throws. *)
Inductive ToolResult : Type :=
| Text (s : string)
| Throws (msg : string).

(** What [playground_get_prompt] and [playground_watch] do with a
    record once they have published [processing]: under [verbose] the
    log line renders [pathname] first, then the text is built. *)
Definition delivery_text (p : PlaygroundPrompt) : option string :=
  if verbose && negb (renders (pathname p)) then None else prompt_text p.

Definition deliver (p : PlaygroundPrompt) : ToolResult :=
  match delivery_text p with
  | Some s => Text s
  | None => Throws type_error
  end.

(** [case "playground_get_prompt"]. *)
Definition playground_get_prompt (w : World) : World * ToolResult :=
  match PromptStore.getOldest (queue w) with
  | None => (w, Text no_prompt_text)
  | Some p => (broadcastStatus "processing" w, deliver p)
  end.

(** [`${i + 1}. ${p.pathname} (${p.prompt.length} chars, ${time})`]. *)
Definition pending_line (i : nat) (p : PlaygroundPrompt) : option string :=
  path ← toString (pathname p);
  Some (pretty (i + 1)%nat +:+ ". " +:+ path +:+ " (" +:+
        pretty (String_length (prompt p)) +:+ " chars, " +:+
        toLocaleTimeString (timestamp p) +:+ ")").

(** [all.map(...)]: the lines in queue order, [None] when one throws. *)
Definition pending_lines (all : list PlaygroundPrompt) : option (list string) :=
  mapM (λ line, line) (imap pending_line all).

(** [case "playground_list_pending"]. *)
Definition playground_list_pending (w : World) : World * ToolResult :=
  let all := PromptStore.getAll (queue w) in
  if bool_decide (length all = 0%nat) then (w, Text "No pending prompts.")
  else
    match pending_lines all with
    | Some lines => (w, Text ("Pending prompts:" +:+ nl +:+ join nl lines))
    | None => (w, Throws type_error)
    end.

(** [case "playground_clear"]. *)
Definition playground_clear (w : World) : World * ToolResult :=
  let count := PromptStore.count (queue w) in
  let w := set_queue (PromptStore.clear (queue w)) w in
  let w := broadcastStatus "done" w in
  (w, Text (if bool_decide (0 < count)%nat
            then "Cleared " +:+ pretty count +:+ " prompt(s)."
            else "No prompts to clear.")).

(** [timeoutSec] of [playground_watch]. *)
Definition watch_timeout (toolArgs : JsVal) : float :=
  let t := get_opt toolArgs "timeout_seconds" in
  (* typeof t === "number" ? t : 300 *)
  Math_min (match t with JNum x => x | _ => 300%float end) 600%float.

(** [deadline = Date.now() + timeoutSec * 1000]. *)
Definition watch_deadline (now : float) (toolArgs : JsVal) : float :=
  (now + watch_timeout toolArgs * 1000)%float.

(** One turn of the polling loop: the test of the [while] with clock
    reading [now], and the body up to its [await].  [Some r]: the call
    returns [r] (or throws it); [None]: the call sleeps one second. *)
Definition watch_poll (deadline : float) (now : float) (w : World)
  : World * option ToolResult :=
  if (now <? deadline)%float then
    match PromptStore.getOldest (queue w) with
    | Some p =>
        let w := broadcastStatus "processing" w in
        let w := set_queue (fst (PromptStore.removeOldest (queue w))) w in
        (w, Some (deliver p))
    | None => (w, None)
    end
  else (w, Some (Text timeout_text)).

(** [default: throw new Error(`Unknown tool: ${name}`)]. *)
Definition unknown_tool (name : string) (w : World) : World * ToolResult :=
  (w, Throws ("Unknown tool: " +:+ name)).

(** A turn of the event loop other than a poll of the watch call under
    study: an HTTP request, the close of an event stream, a tool call
    that returns within its turn, or a poll of another watch call. *)
Inductive Turn : Type :=
| THttp (c : Client) (r : Request) (e : AddEnv)
| TClose (c : Client)
| TGetPrompt
| TListPending
| TClear
| TWatchPoll (deadline : float) (now : float).

(** The world a turn leaves, and whether the process is still up: a
    tool call that throws is answered with an error by the MCP server,
    a listener that throws is not caught by anything. *)
Definition turn (w : World) (t : Turn) : World * bool :=
  match t with
  | THttp c r e => let '(w', a) := handle c r e w in (w', negb (is_crash a))
  | TClose c => (close c w, true)
  | TGetPrompt => (fst (playground_get_prompt w), true)
  | TListPending => (fst (playground_list_pending w), true)
  | TClear => (fst (playground_clear w), true)
  | TWatchPoll d now => (fst (watch_poll d now w), true)
  end.

(** The world after a turn, and after the turns of a list, each of
    which runs: a listener that throws leaves the world as it found it
    and ends the process, so that in the list of a real run no turn
    follows it. *)
Definition run_turn (w : World) (t : Turn) : World := fst (turn w t).

Definition run_turns (ts : list Turn) (w : World) : World := foldl run_turn w ts.

(** The process is still up after the turns: none of them ended it. *)
Fixpoint survives (ts : list Turn) (w : World) : bool :=
  match ts with
  | [] => true
  | t :: ts' => snd (turn w t) && survives ts' (run_turn w t)
  end.

(** The polling loop from its first test on.  [now] is the clock reading
    of the test about to be made; each element of [sleeps] is one
    [await] of the loop: the turns that run during the second it sleeps
    and the clock reading of the test that follows.  [None]: the call
    has not returned, because it is still asleep when the given sleeps
    are used up or because the process ended while it slept. *)
Fixpoint watch_loop (deadline : float) (now : float)
  (sleeps : list (list Turn * float)) (w : World) {struct sleeps}
  : World * option ToolResult :=
  match watch_poll deadline now w with
  | (w', Some r) => (w', Some r)
  | (w', None) =>
      match sleeps with
      | [] => (w', None)
      | (ts, now') :: rest =>
          if survives ts w' then watch_loop deadline now' rest (run_turns ts w')
          else (run_turns ts w', None)
      end
  end.

(** [case "playground_watch"]: [now0] is the clock reading of the
    deadline computation, [now1] the one of the first test. *)
Definition playground_watch (toolArgs : JsVal) (now0 now1 : float)
  (sleeps : list (list Turn * float)) (w : World) : World * option ToolResult :=
  watch_loop (watch_deadline now0 toolArgs) now1 sleeps w.

(** The [CallToolRequestSchema] handler: the [switch] on the tool name.
    [None]: a watch call that has not returned. *)
Definition call_tool (name : string) (toolArgs : JsVal) (now0 now1 : float)
  (sleeps : list (list Turn * float)) (w : World) : World * option ToolResult :=
  let returned (x : World * ToolResult) := (x.1, Some x.2) in
  if bool_decide (name = "playground_get_prompt") then
    returned (playground_get_prompt w)
  else if bool_decide (name = "playground_list_pending") then
    returned (playground_list_pending w)
  else if bool_decide (name = "playground_clear") then
    returned (playground_clear w)
  else if bool_decide (name = "playground_watch") then
    playground_watch toolArgs now0 now1 sleeps w
  else returned (unknown_tool name w).

End WithRuntime.
End Server.

(** ** [burst.ts]: batch mode *)

Module Burst.

(** [findClaudePath]: the first candidate that [filter(Boolean)] keeps;
    [claude_path] is [process.env.CLAUDE_PATH]. *)
Definition findClaudePath (claude_path : option string) : string :=
  let candidates :=
    filter (fun s => s ≠ EmptyString)
      (match claude_path with Some s => [s] | None => [] end
       ++ ["/opt/homebrew/bin/claude"; "/usr/local/bin/claude"; "claude"]) in
  default EmptyString (head candidates).

(** A call of [spawn]. *)
Record Invocation : Type := {
  command : string;
  arguments : list string;
  shell : bool
}.

(** The event of the child process that settles the promise of
    [runClaudeCode]: [close] with an exit code ([None]: [null], killed
    by a signal) or [error]. *)
Inductive ChildEvent : Type :=
| ChildClose (code : option Z)
| ChildError (msg : string).

(** The [spawn] of [runClaudeCode(prompt)]. *)
Definition spawn_claude (claude_path : option string) (p : string) : Invocation :=
  let claudePath := findClaudePath claude_path in
  {| command := claudePath;
     arguments := ["--print"; "--continue"; "--permission-mode";
                   "bypassPermissions"; p];
     shell := bool_decide (claudePath = "claude") |}.

(** The [success] field [runClaudeCode] resolves with. *)
Definition success (ev : ChildEvent) : bool :=
  match ev with
  | ChildClose code => bool_decide (code = Some 0)
  | ChildError _ => false
  end.

Section WithRuntime.
Context `{Runtime}.

(** The [end] handler of [POST /prompt]. *)
Definition post_prompt (b : string) (e : AddEnv) (w : World) : World * Response :=
  match JSON_parse b with
  | None => (w, error_reply "Invalid JSON")
  | Some JUndefined | Some JNull => (w, error_reply "Invalid JSON")
  | Some payload =>
      let prompt := get payload "prompt" in
      let pageUrl := get payload "url" in
      let pagePath := get payload "pathname" in
      if negb (truthy prompt) || negb (is_string prompt) then
        (w, error_reply "prompt is required")
      else
        let '(q, _) :=
          PromptStore.add
            {| new_prompt := string_of prompt;
               new_url := Js.or pageUrl (JStr EmptyString);
               new_pathname := Js.or pagePath (JStr "/") |}
            e (queue w) in
        (* console.log(`Received prompt from ${pagePath} (${prompt.length} chars)`) *)
        if negb (renders pagePath) then
          (* the template literal throws, and the catch answers *)
          (set_queue q w, error_reply "Invalid JSON")
        else
          (set_queue q w, Reply 200 (Some (JObj [("success", JBool true)])))
  end.

(** The request listener of [createHttpServer]. *)
Definition handle (c : Client) (r : Request) (e : AddEnv) (w : World)
  : World * Response :=
  if bool_decide (method r = "OPTIONS") then (w, Reply 204 None)
  else
    match route r with
    | None => (w, Crash)
    | Some path =>
        if bool_decide (method r = "GET") && bool_decide (path = "/health") then
          (w, Reply 200 (Some (JObj
             [("status", JStr "ok"); ("mode", JStr "burst");
              ("pending_prompts", JNum (number_of_nat (PromptStore.count (queue w))))])))
        else if bool_decide (method r = "GET") && bool_decide (path = "/events") then
          let w := write c {| event := "connected";
                              data := [("status", JStr "ok"); ("mode", JStr "burst")] |} w in
          (set_clients (clients_add c (sseClients w)) w, EventStream)
        else if bool_decide (method r = "POST") && bool_decide (path = "/prompt") then
          post_prompt (body r) e w
        else (w, Reply 404 (Some (JObj [("error", JStr "Not found")])))
    end.

Definition close (c : Client) (w : World) : World :=
  set_clients (clients_delete c (sseClients w)) w.

(** The turns that can run while [burstLoop] awaits: there is no MCP
    server in this mode. *)
Inductive Turn : Type :=
| THttp (c : Client) (r : Request) (e : AddEnv)
| TClose (c : Client).

(** The world a turn leaves, and whether the process is still up. *)
Definition turn (w : World) (t : Turn) : World * bool :=
  match t with
  | THttp c r e => let '(w', a) := handle c r e w in (w', negb (is_crash a))
  | TClose c => (close c w, true)
  end.

(** The world after a turn, and after the turns of a list, each of
    which runs: a listener that throws leaves the world as it found it
    and ends the process, so that in the list of a real run no turn
    follows it. *)
Definition run_turn (w : World) (t : Turn) : World := fst (turn w t).

Definition run_turns (ts : list Turn) (w : World) : World := foldl run_turn w ts.

(** The process is still up after the turns: none of them ended it. *)
Fixpoint survives (ts : list Turn) (w : World) : bool :=
  match ts with
  | [] => true
  | t :: ts' => snd (turn w t) && survives ts' (run_turn w t)
  end.

(** [`## Prompt ${i + 1} (from ${p.pathname})\n\n${p.prompt}`]; [None]
    when the template literal throws. *)
Definition section_text (i : nat) (p : PlaygroundPrompt) : option string :=
  path ← toString (pathname p);
  Some ("## Prompt " +:+ pretty (i + 1)%nat +:+ " (from " +:+ path +:+ ")"
        +:+ nl +:+ nl +:+ prompt p).

Definition separator : string := nl +:+ nl +:+ "---" +:+ nl +:+ nl.

(** [combined]. *)
Definition combined (prompts : list PlaygroundPrompt) : option string :=
  join separator <$> mapM (λ line, line) (imap section_text prompts).

(** [fullPrompt]. *)
Definition fullPrompt (prompts : list PlaygroundPrompt) : option string :=
  text ← combined prompts;
  Some ("You have received " +:+ pretty (length prompts) +:+
        " prompt(s) from playground files. Process each one:" +:+ nl +:+ nl +:+
        text).

(** What one iteration of [while (true)] meets: the turns that run
    during the sleep of the countdown step [i] (10 down to 1), whether
    [spawn] throws instead of returning a child process, the turns that
    run while the child process does, the event that ends it, and the
    turns that run during the closing two-second sleep. *)
Record IterEnv : Type := {
  window : nat → list Turn;
  spawn_throws : bool;
  during_run : list Turn;
  child : ChildEvent;
  poll_sleep : list Turn
}.

(** The same iteration with another end of the child process. *)
Definition with_child (ev : ChildEvent) (env : IterEnv) : IterEnv :=
  {| window := window env;
     spawn_throws := spawn_throws env;
     during_run := during_run env;
     child := ev;
     poll_sleep := poll_sleep env |}.

(** [for (let i = n; i > 0; i--) { ...; await sleep(1000) }]: the world
    when the loop is left, and whether the process is still up. *)
Fixpoint countdown (i : nat) (sleeps : nat → list Turn) (w : World) : World * bool :=
  match i with
  | O => (w, true)
  | S i' =>
      if survives (sleeps i) w then countdown i' sleeps (run_turns (sleeps i) w)
      else (run_turns (sleeps i) w, false)
  end.

(** What an iteration did: the world it leaves, the processes it
    spawned, the [success] of each, and whether the process is still
    running ([burstLoop] has not thrown and no listener has). *)
Record IterResult : Type := {
  world : World;
  spawned : list Invocation;
  results : list bool;
  running : bool
}.

(** The process ended in world [w], having spawned [invs]. *)
Definition ended (w : World) (invs : list Invocation) : IterResult :=
  {| world := w; spawned := invs; results := []; running := false |}.

(** The body of [while (true)] up to, and without, the closing sleep. *)
Definition batch (claude_path : option string) (env : IterEnv) (w : World)
  : IterResult :=
  let count := PromptStore.count (queue w) in
  if bool_decide (0 < count)%nat then
    let w := broadcastStatus "collecting" w in
    let c := countdown 10 (window env) w in
    if negb (snd c) then ended (fst c) []
    else
      let w := fst c in
      let prompts := PromptStore.getAll (queue w) in
      if bool_decide (0 < length prompts)%nat then
        let w := broadcastStatus "processing" w in
        match fullPrompt prompts with
        | None => (* the template literal throws *) ended w []
        | Some text =>
            (* await runClaudeCode(fullPrompt) *)
            if spawn_throws env then ended w []
            else
              let inv := spawn_claude claude_path text in
              if survives (during_run env) w then
                let w := run_turns (during_run env) w in
                let result := success (child env) in
                let w := set_queue (PromptStore.clear (queue w)) w in
                let w := broadcastStatus "done" w in
                let w := broadcastStatus "ready" w in
                {| world := w; spawned := [inv]; results := [result]; running := true |}
              else ended (run_turns (during_run env) w) [inv]
        end
      else {| world := w; spawned := []; results := []; running := true |}
  else {| world := w; spawned := []; results := []; running := true |}.

(** One iteration of [while (true)]. *)
Definition iteration (claude_path : option string) (env : IterEnv) (w : World)
  : IterResult :=
  let r := batch claude_path env w in
  if running r then
    {| world := run_turns (poll_sleep env) (world r);
       spawned := spawned r;
       results := results r;
       running := survives (poll_sleep env) (world r) |}
  else r.

(** [burstLoop], for as many iterations as [envs] describes: the loop
    has no exit other than a throw, so a run of it is a run of
    iterations that stops when the process does. *)
Fixpoint burstLoop (claude_path : option string) (envs : list IterEnv) (w : World)
  : IterResult :=
  match envs with
  | [] => {| world := w; spawned := []; results := []; running := true |}
  | env :: rest =>
      let r := iteration claude_path env w in
      if running r then
        let r' := burstLoop claude_path rest (world r) in
        {| world := world r';
           spawned := spawned r ++ spawned r';
           results := results r ++ results r';
           running := running r' |}
      else r
  end.

(** The accumulation window of an iteration that found prompts: the
    world when it closes, and whether the process is still up. *)
Definition window_end (env : IterEnv) (w : World) : World * bool :=
  countdown 10 (window env) (broadcastStatus "collecting" w).

(** What [store.getAll()] snapshots when the window closes. *)
Definition snapshot (env : IterEnv) (w : World) : list PlaygroundPrompt :=
  PromptStore.getAll (queue (fst (window_end env w))).

(** The world in which the child process is started. *)
Definition at_spawn (env : IterEnv) (w : World) : World :=
  broadcastStatus "processing" (fst (window_end env w)).

(** The world when the child process has ended, before [store.clear()]. *)
Definition after_run (env : IterEnv) (w : World) : World :=
  run_turns (during_run env) (at_spawn env w).

End WithRuntime.
End Burst.

(** ** Start-up: [createHttpServer], [startServer], [startBurstMode], [cli.ts] *)

(** What [server.listen(port)] leads to: the [listening] callback, or an
    [error] event with its [code]. *)
Inductive ListenEvent : Type :=
| Listening
| ListenError (code : string).

(** How a promise settles. *)
Inductive Settled : Type :=
| Resolved
| Rejected (reason : string).

(** What becomes of the process. *)
Inductive Process : Type :=
(** [process.exit(code)]. *)
| Exited (code : Z)
(** Interactive mode running: whether the HTTP listener is bound, and
    the MCP server connected over stdio. *)
| Interactive (http_bound : bool)
(** Batch mode running [burstLoop]. *)
| Batch.

Module Startup.

(** [createHttpServer] of [server.ts]. *)
Definition server_createHttpServer (l : ListenEvent) : Settled :=
  match l with
  | Listening => Resolved
  | ListenError code =>
      if bool_decide (code = "EADDRINUSE") then Resolved else Rejected code
  end.

(** [createHttpServer] of [burst.ts]. *)
Definition burst_createHttpServer (port : Z) (l : ListenEvent) : Settled :=
  match l with
  | Listening => Resolved
  | ListenError code =>
      if bool_decide (code = "EADDRINUSE")
      then Rejected ("Port " +:+ pretty port +:+ " in use")
      else Rejected code
  end.

(** [startServer]: [connect] is how [mcpServer.connect(transport)]
    settles. *)
Definition startServer (l : ListenEvent) (connect : Settled) : Settled :=
  match server_createHttpServer l with
  | Rejected e => Rejected e
  | Resolved => connect
  end.

(** [args.includes(x)]. *)
Definition includes (args : list string) (x : string) : bool :=
  bool_decide (x ∈ args).

(** [cli.ts]: [port] is the value it computes for [--port] (4242
    without the flag). *)
Definition main (args : list string) (port : Z) (l : ListenEvent)
  (connect : Settled) : Process :=
  let burstMode := includes args "--burst" in
  let helpRequested := includes args "--help" || includes args "-h" in
  if helpRequested then Exited 0
  else if burstMode then
    (* startBurstMode: createHttpServer, then burstLoop, which does not
       return (it can only throw, see [Burst.running]) *)
    match burst_createHttpServer port l with
    | Rejected _ => Exited 1
    | Resolved => Batch
    end
  else
    match startServer l connect with
    | Rejected _ => Exited 1
    | Resolved =>
        Interactive (match l with Listening => true | ListenError _ => false end)
    end.

End Startup.

(** ** Two concurrent watch calls *)

Module Concurrent.
Section WithRuntime.
Context `{Runtime}.

(** A [playground_watch] call in flight: asleep between two polls of its
    loop, or returned. *)
Inductive Call : Type :=
| Waiting (deadline : float)
| Returned (r : Server.ToolResult).

Record State : Type := {
  callA : Call;
  callB : Call;
  shared : World
}.

(** Which call the event loop resumes, and the clock reading its test
    of the [while] gets. *)
Inductive Resume : Type :=
| ResumeA (now : float)
| ResumeB (now : float).

(** Resuming a call runs one poll of its loop; a call that has returned
    is never resumed again. *)
Definition resume (c : Call) (now : float) (w : World) : Call * World :=
  match c with
  | Waiting d =>
      match Server.watch_poll d now w with
      | (w', Some r) => (Returned r, w')
      | (w', None) => (Waiting d, w')
      end
  | Returned r => (Returned r, w)
  end.

Definition step (s : State) (r : Resume) : State :=
  match r with
  | ResumeA now =>
      let '(c, w) := resume (callA s) now (shared s) in
      {| callA := c; callB := callB s; shared := w |}
  | ResumeB now =>
      let '(c, w) := resume (callB s) now (shared s) in
      {| callA := callA s; callB := c; shared := w |}
  end.

Definition run (sched : list Resume) (s : State) : State := foldl step s sched.

(** The call took record [p] off the queue: it returned what the
    rendering of [p] gives, a text or an error. *)
Definition took (c : Call) (p : PlaygroundPrompt) : Prop :=
  c = Returned (Server.deliver p).

(** The call received record [p]: it returned the text of [p]. *)
Definition received (c : Call) (p : PlaygroundPrompt) : Prop :=
  ∃ text, Server.delivery_text p = Some text ∧ c = Returned (Server.Text text).

(** The call is still blocked, or it timed out. *)
Definition blocked_or_timed_out (c : Call) : Prop :=
  (∃ d, c = Waiting d) ∨ c = Returned (Server.Text Server.timeout_text).

(** The resumption polls before the deadline of the call it resumes. *)
Definition in_time (dA dB : float) (r : Resume) : Prop :=
  match r with
  | ResumeA now => (now <? dA)%float = true
  | ResumeB now => (now <? dB)%float = true
  end.

(** What the two calls and the queue can look like when the queue
    started with the single record [p]. *)
Inductive Shape (p : PlaygroundPrompt) (s : State) : Prop :=
| nobody_yet :
    blocked_or_timed_out (callA s) → blocked_or_timed_out (callB s) →
    queue (shared s) = [p] → Shape p s
| A_took :
    took (callA s) p → blocked_or_timed_out (callB s) →
    queue (shared s) = [] → Shape p s
| B_took :
    took (callB s) p → blocked_or_timed_out (callA s) →
    queue (shared s) = [] → Shape p s.

End WithRuntime.
End Concurrent.

(** ** The watch loop, poll by poll *)

Module Polls.
Section WithRuntime.
Context `{Runtime}.

(** The clock readings of the polls of a watch call, first poll first. *)
Definition clocks (now1 : float) (sleeps : list (list Server.Turn * float))
  : list float :=
  now1 :: (snd <$> sleeps).

(** The turns that run before poll [k]: those of the first [k] sleeps. *)
Definition turns_before (k : nat) (sleeps : list (list Server.Turn * float))
  : list Server.Turn :=
  concat (fst <$> take k sleeps).

(** The world poll [k] finds when no poll before it found a record. *)
Definition world_at (k : nat) (sleeps : list (list Server.Turn * float)) (w : World)
  : World :=
  Server.run_turns (turns_before k sleeps) w.

(** The process is still up when poll [k] is due. *)
Definition up_at (k : nat) (sleeps : list (list Server.Turn * float)) (w : World)
  : bool :=
  Server.survives (turns_before k sleeps) w.

(** What a poll that finds record [p] leaves: [p] removed and a
    [processing] frame written to every subscriber. *)
Definition delivered (w : World) (rest : PromptStore.t) : World :=
  {| queue := rest;
     sseClients := sseClients w;
     sent := sent w ++ frames {| event := "status"; data := status_data "processing" |}
                              (sseClients w) |}.

End WithRuntime.
End Polls.

(** ** A runtime for examples *)

Module Demo.

Definition dq : string := String "034"%char EmptyString.

(** [{"prompt":"add a footer","pathname":"/design"}]. *)
Definition body_footer : string :=
  "{" +:+ dq +:+ "prompt" +:+ dq +:+ ":" +:+ dq +:+ "add a footer" +:+ dq +:+ "," +:+
  dq +:+ "pathname" +:+ dq +:+ ":" +:+ dq +:+ "/design" +:+ dq +:+ "}".

(** [{"prompt":"make the header blue","url":"http://localhost:8000/cards.html","pathname":"/cards.html"}]. *)
Definition body_header : string :=
  "{" +:+ dq +:+ "prompt" +:+ dq +:+ ":" +:+ dq +:+ "make the header blue" +:+ dq +:+ "," +:+
  dq +:+ "url" +:+ dq +:+ ":" +:+ dq +:+ "http://localhost:8000/cards.html" +:+ dq +:+ "," +:+
  dq +:+ "pathname" +:+ dq +:+ ":" +:+ dq +:+ "/cards.html" +:+ dq +:+ "}".

(** The body whose [prompt] is the empty string. *)
Definition body_empty_prompt : string :=
  "{" +:+ dq +:+ "prompt" +:+ dq +:+ ":" +:+ dq +:+ dq +:+ "}".

(** [{"prompt":"fix it","pathname":{"toString":1}}]. *)
Definition body_odd_path : string :=
  "{" +:+ dq +:+ "prompt" +:+ dq +:+ ":" +:+ dq +:+ "fix it" +:+ dq +:+ "," +:+
  dq +:+ "pathname" +:+ dq +:+ ":{" +:+ dq +:+ "toString" +:+ dq +:+ ":1}}".

(** The integer part of a finite number. *)
Definition integer_part (x : float) : Z :=
  match FloatOps.Prim2SF x with
  | SpecFloat.S754_finite s m e =>
      let v := if (0 <=? e)%Z then Z.shiftl (Z.pos m) e else Z.shiftr (Z.pos m) (- e) in
      if s then - v else v
  | _ => 0
  end.

(** A runtime that parses the four bodies above and [{}], renders a
    number by its integer part and a time by its milliseconds, counts
    the characters of ASCII strings, and takes a request target for its
    path unless it is [//], which [new URL] rejects.  [talk] is the
    [verbose] flag. *)
Definition runtime_with (talk : bool) : Runtime :=
  {| JSON_parse b :=
       if bool_decide (b = body_footer)
       then Some (JObj [("prompt", JStr "add a footer"); ("pathname", JStr "/design")])
       else if bool_decide (b = body_header)
       then Some (JObj [("prompt", JStr "make the header blue");
                        ("url", JStr "http://localhost:8000/cards.html");
                        ("pathname", JStr "/cards.html")])
       else if bool_decide (b = body_empty_prompt)
       then Some (JObj [("prompt", JStr EmptyString)])
       else if bool_decide (b = body_odd_path)
       then Some (JObj [("prompt", JStr "fix it");
                        ("pathname", JObj [("toString", JNum 1%float)])])
       else if bool_decide (b = "{}") then Some (JObj [])
       else None;
     Number_toString x := pretty (integer_part x);
     toLocaleTimeString ms := pretty ms;
     String_length s := String.length s;
     URL_pathname u := if bool_decide (u = "//") then None else Some u;
     verbose := talk |}.

(** The process started without [--verbose], and with it. *)
Definition runtime : Runtime := runtime_with false.
Definition verbose_runtime : Runtime := runtime_with true.

Definition env (t : Z) (r : string) : AddEnv :=
  {| clock_id := t; random36 := r; clock_ts := t |}.

Definition footer : NewPrompt :=
  {| new_prompt := "add a footer";
     new_url := JStr EmptyString;
     new_pathname := JStr "/design" |}.

Definition header : NewPrompt :=
  {| new_prompt := "make the header blue";
     new_url := JStr "http://localhost:8000/cards.html";
     new_pathname := JStr "/cards.html" |}.

(** What [POST /prompt] queues for [body_odd_path]. *)
Definition odd_path : NewPrompt :=
  {| new_prompt := "fix it";
     new_url := JStr EmptyString;
     new_pathname := JObj [("toString", JNum 1%float)] |}.

Definition post (b : string) : Request :=
  {| method := "POST"; req_url := "/prompt"; body := b |}.

Definition get_request (u : string) : Request :=
  {| method := "GET"; req_url := u; body := EmptyString |}.

(** No prompt queued, connection 7 subscribed to [/events]. *)
Definition idle : World := {| queue := []; sseClients := [7%nat]; sent := [] |}.

(** One prompt queued. *)
Definition one_pending : World :=
  {| queue := [PromptStore.entry footer (env 1000 "0.k3j9x2aa")];
     sseClients := [7%nat];
     sent := [] |}.

(** One prompt queued, the one of [body_odd_path]. *)
Definition odd_pending : World :=
  {| queue := [PromptStore.entry odd_path (env 1000 "0.k3j9x2aa")];
     sseClients := [7%nat];
     sent := [] |}.

(** [{ timeout_seconds: x }]. *)
Definition timeout_arg (x : float) : JsVal :=
  JObj [("timeout_seconds", JNum x)].

(** An iteration of the batch loop: a second prompt arrives while the
    countdown shows 7, and the command cannot be started ([spawn]
    returns a child process that emits [error]). *)
Definition burst_env : Burst.IterEnv :=
  {| Burst.window i :=
       if bool_decide (i = 7%nat)
       then [Burst.THttp 4%nat (post body_header) (env 4000 "0.zz81kq07")]
       else [];
     Burst.spawn_throws := false;
     Burst.during_run := [];
     Burst.child := Burst.ChildError "spawn claude ENOENT";
     Burst.poll_sleep := [] |}.

(** An iteration during whose countdown the body [body_odd_path] is
    posted, and whose command would exit with status 0. *)
Definition odd_arrival_env : Burst.IterEnv :=
  {| Burst.window i :=
       if bool_decide (i = 7%nat)
       then [Burst.THttp 4%nat (post body_odd_path) (env 4000 "0.zz81kq07")]
       else [];
     Burst.spawn_throws := false;
     Burst.during_run := [];
     Burst.child := Burst.ChildClose (Some 0);
     Burst.poll_sleep := [] |}.

(** An iteration in which nothing else happens and [spawn] throws. *)
Definition spawn_throws_env : Burst.IterEnv :=
  {| Burst.window i := [];
     Burst.spawn_throws := true;
     Burst.during_run := [];
     Burst.child := Burst.ChildClose (Some 0);
     Burst.poll_sleep := [] |}.

End Demo.

(** ** Runs of the interactive server *)

Module ServerRun.
Section WithRuntime.
Context `{Runtime}.

(** The request reaches the [POST /prompt] branch of the listener. *)
Definition is_post_prompt (r : Request) : bool :=
  bool_decide (method r = "POST") && bool_decide (route r = Some "/prompt").

(** The request reaches the [GET /events] branch of the listener. *)
Definition is_get_events (r : Request) : bool :=
  bool_decide (method r = "GET") && bool_decide (route r = Some "/events").

(** The record a turn queues: one for a [POST /prompt] whose body is
    accepted, none for any other turn. *)
Definition posted (t : Server.Turn) : list PlaygroundPrompt :=
  match t with
  | Server.THttp _ r e =>
      if is_post_prompt r then
        match JSON_parse (body r), accepted_prompt (JSON_parse (body r)) with
        | Some payload, Some _ => [submitted payload e]
        | _, _ => []
        end
      else []
  | _ => []
  end.

(** The turn subscribes connection [c] to the event stream. *)
Definition subscribes (c : Client) (t : Server.Turn) : bool :=
  match t with
  | Server.THttp c' r _ => bool_decide (c' = c) && is_get_events r
  | _ => false
  end.

(** A frame the interactive server can write: the acknowledgement of a
    subscription, or a [status] event whose status is [received] (with
    an id), [processing] or [done]. *)
Definition server_frame (m : SseMessage) : Prop :=
  m = {| event := "connected"; data := [("status", JStr "ok")] |}
  ∨ (∃ i, m = {| event := "status";
                 data := [("status", JStr "received"); ("id", JStr i)] |})
  ∨ m = {| event := "status"; data := status_data "processing" |}
  ∨ m = {| event := "status"; data := status_data "done" |}.

(** What a turn can do to the world: nothing; subscribe a connection
    and acknowledge it; drop a connection; queue a submitted record,
    announcing it or (when the log line throws) not; or keep a back
    part of the queue (all of it, all but the oldest record, or nothing)
    and publish [processing] or [done]. *)
Inductive Effect (w : World) (t : Server.Turn) : World → Prop :=
| effect_none :
    posted t = [] → Effect w t w
| effect_subscribe c :
    subscribes c t = true → posted t = [] →
    Effect w t
      {| queue := queue w;
         sseClients := clients_add c (sseClients w);
         sent := sent w ++ [(c, {| event := "connected";
                                   data := [("status", JStr "ok")] |})] |}
| effect_close c :
    posted t = [] →
    Effect w t
      {| queue := queue w;
         sseClients := clients_delete c (sseClients w);
         sent := sent w |}
| effect_post x :
    posted t = [x] →
    Effect w t
      {| queue := queue w ++ [x];
         sseClients := sseClients w;
         sent := sent w ++
                 frames {| event := "status";
                           data := [("status", JStr "received"); ("id", JStr (id x))] |}
                        (sseClients w) |}
| effect_post_unannounced x :
    posted t = [x] →
    Effect w t
      {| queue := queue w ++ [x];
         sseClients := sseClients w;
         sent := sent w |}
| effect_status s q :
    s = "processing" ∨ s = "done" → q `suffix_of` queue w → posted t = [] →
    Effect w t
      {| queue := q;
         sseClients := sseClients w;
         sent := sent w ++ frames {| event := "status"; data := status_data s |}
                                  (sseClients w) |}.

(** Watch calls made one after the other, none of them sleeping: each
    is given its arguments and the two clock readings it starts with. *)
Fixpoint watch_each (calls : list (JsVal * float * float)) (w : World)
  : World * list (option Server.ToolResult) :=
  match calls with
  | [] => (w, [])
  | (toolArgs, now0, now1) :: rest =>
      let '(w1, r) := Server.playground_watch toolArgs now0 now1 [] w in
      let '(w2, rs) := watch_each rest w1 in
      (w2, r :: rs)
  end.

(** The call's first test of the loop comes before its deadline. *)
Definition starts_in_time (call : JsVal * float * float) : Prop :=
  let '(toolArgs, now0, now1) := call in
  (now1 <? Server.watch_deadline now0 toolArgs)%float = true.

(** [n] calls of [playground_get_prompt] in a row. *)
Fixpoint get_prompt_times (n : nat) (w : World) : World * list Server.ToolResult :=
  match n with
  | O => (w, [])
  | S n' =>
      let '(w1, r) := Server.playground_get_prompt w in
      let '(w2, rs) := get_prompt_times n' w1 in
      (w2, r :: rs)
  end.

End WithRuntime.
End ServerRun.

(** ** Runs of the batch server *)

Module BurstRun.
Section WithRuntime.
Context `{Runtime}.

(** The same iteration with other turns during the child's run. *)
Definition with_during_run (ts : list Burst.Turn) (env : Burst.IterEnv)
  : Burst.IterEnv :=
  {| Burst.window := Burst.window env;
     Burst.spawn_throws := Burst.spawn_throws env;
     Burst.during_run := ts;
     Burst.child := Burst.child env;
     Burst.poll_sleep := Burst.poll_sleep env |}.

(** The acknowledgement [burst.ts] writes to a new subscriber. *)
Definition connected_frame : SseMessage :=
  {| event := "connected"; data := [("status", JStr "ok"); ("mode", JStr "burst")] |}.

(** Frames that are all acknowledgements of subscriptions. *)
Definition only_connected (fs : list (Client * SseMessage)) : Prop :=
  Forall (fun f => f.2 = connected_frame) fs.

(** A frame the batch server can write: the acknowledgement of a
    subscription, or a [status] event whose status is [collecting],
    [processing], [done] or [ready]. *)
Definition burst_frame (m : SseMessage) : Prop :=
  m = connected_frame
  ∨ ∃ s, m = {| event := "status"; data := status_data s |}
         ∧ (s = "collecting" ∨ s = "processing" ∨ s = "done" ∨ s = "ready").

End WithRuntime.
End BurstRun.

(** ** Comparisons of doubles

    Case analysis on the comparisons of exponents and mantissas that
    [SpecFloat.SFcompare] makes. *)

Ltac compare_cases :=
  repeat match goal with
  | H : context [PosDef.Pos.compare_cont Eq ?p ?q] |- _ =>
      change (PosDef.Pos.compare_cont Eq p q) with (Pos.compare p q) in H
  | |- context [PosDef.Pos.compare_cont Eq ?p ?q] =>
      change (PosDef.Pos.compare_cont Eq p q) with (Pos.compare p q)
  end;
  repeat match goal with
  | H : context [(?x ?= ?y)%Z] |- _ => destruct (Z.compare_spec x y); simpl in *
  | |- context [(?x ?= ?y)%Z] => destruct (Z.compare_spec x y); simpl in *
  | H : context [(?x ?= ?y)%positive] |- _ =>
      destruct (Pos.compare_spec x y); simpl in *
  | |- context [(?x ?= ?y)%positive] => destruct (Pos.compare_spec x y); simpl in *
  end;
  try done; try lia.

(** * Properties *)

(** ** The queue is first-in first-out *)

Section Fifo.
Import PromptStore.

Lemma fifo_invariant_step st0 r o :
  no_clear o = true → fifo_invariant st0 r → fifo_invariant st0 (step r o).
Proof.
  unfold fifo_invariant. intros Hop Hinv.
  destruct o; simpl in *; try done.
  - by rewrite !app_assoc, Hinv.
  - destruct (store r) as [|p rest] eqn:Hst; simpl.
    + by rewrite !app_nil_r in *.
    + by rewrite Hinv, <- app_assoc.
Qed.

Lemma fifo_invariant_run st0 ops : ∀ r,
  forallb no_clear ops = true → fifo_invariant st0 r →
  fifo_invariant st0 (run ops r).
Proof.
  induction ops as [|o ops IH]; intros r Hops Hinv; simpl in *; [done|].
  apply andb_prop in Hops as [Ho Hops].
  apply IH; [done|]. by apply fifo_invariant_step.
Qed.

(** Popping until the store is empty returns what it held, front first,
    and creates nothing. *)
Lemma run_drain st : ∀ r,
  store r = st →
  popped (run (drain st) r) = popped r ++ st
  ∧ store (run (drain st) r) = []
  ∧ created (run (drain st) r) = created r.
Proof.
  induction st as [|x st IH]; intros r Hst.
  - simpl. by rewrite app_nil_r.
  - destruct (IH (step r OpRemoveOldest)) as (Hp & Hs & Hc).
    { simpl. by rewrite Hst. }
    change (run (drain (x :: st)) r)
      with (run (drain st) (step r OpRemoveOldest)).
    rewrite Hp, Hs, Hc. simpl. rewrite Hst. simpl.
    by rewrite <- app_assoc.
Qed.

(** C1. For every sequence of calls of the store's methods other than
    [clear] (so every interleaving of [add] and [removeOldest]), run
    from any queue [st0], with [r] what the run has produced:
    - the records the queue held and then received, in insertion order,
      are exactly the records [removeOldest] returned, in return order,
      followed by the records still queued, so the returned records are
      the first of the inserted ones, in insertion order;
    - a further [add] puts its record behind all queued ones and returns
      nothing to anybody;
    - a further [removeOldest] on a non-empty queue takes the front
      record off, returns it, and leaves the others in place; on an
      empty queue it returns nothing;
    - the reading methods change nothing;
    - popping until the queue is empty returns, all in all, every
      record ever inserted, in the order of insertion. *)
Theorem store_fifo (st0 : t) (ops : list Op) :
  forallb no_clear ops = true →
  let r := run ops (start st0) in
  st0 ++ created r = popped r ++ store r
  ∧ popped r `prefix_of` st0 ++ created r
  ∧ (∀ p e, store (step r (OpAdd p e)) = store r ++ [entry p e]
            ∧ popped (step r (OpAdd p e)) = popped r
            ∧ add p e (store r) = (store r ++ [entry p e], entry p e))
  ∧ (∀ x rest, store r = x :: rest →
       removeOldest (store r) = (rest, Some x)
       ∧ store (step r OpRemoveOldest) = rest
       ∧ popped (step r OpRemoveOldest) = popped r ++ [x])
  ∧ (store r = [] →
       removeOldest (store r) = ([], None) ∧ step r OpRemoveOldest = r)
  ∧ (∀ o, o = OpGetOldest ∨ o = OpGetAll ∨ o = OpCount → step r o = r)
  ∧ popped (run (ops ++ drain (store r)) (start st0)) = st0 ++ created r
  ∧ store (run (ops ++ drain (store r)) (start st0)) = [].
Proof.
  intros Hops r.
  assert (fifo_invariant st0 r) as Hinv.
  { apply (fifo_invariant_run st0 ops (start st0) Hops).
    unfold fifo_invariant, start. simpl. by rewrite app_nil_r. }
  destruct (run_drain (store r) r eq_refl) as (Hp & Hs & _).
  split; [exact Hinv|]. split; [rewrite Hinv; by apply prefix_app_r|].
  split; [done|]. split.
  { intros x rest Hst. simpl. by rewrite Hst. }
  split.
  { intros Hst. simpl. rewrite Hst. simpl. rewrite app_nil_r.
    split; [done|]. destruct r. simpl in *. by subst. }
  split; [by intros o [->|[->| ->]]|].
  unfold run in *. rewrite foldl_app. fold r.
  split; [by rewrite Hp, Hinv | exact Hs].
Qed.

End Fifo.

Lemma store_fifo_witness :
  let ops := [PromptStore.OpAdd Demo.footer (Demo.env 1000 "0.k3j9x2aa");
              PromptStore.OpAdd Demo.header (Demo.env 1001 "0.zz81kq07");
              PromptStore.OpRemoveOldest;
              PromptStore.OpGetOldest;
              PromptStore.OpAdd Demo.footer (Demo.env 1002 "0.5c")] in
  let r := PromptStore.run ops (PromptStore.start []) in
  forallb PromptStore.no_clear ops = true
  ∧ PromptStore.popped
      (PromptStore.run (ops ++ PromptStore.drain (PromptStore.store r))
         (PromptStore.start []))
    = [] ++ PromptStore.created r.
Proof.
  intros ops r. split; [reflexivity|].
  exact (proj1 (proj2 (proj2 (proj2 (proj2 (proj2 (proj2
           (store_fifo [] ops eq_refl)))))))).
Defined.

(** The same run, evaluated: the oldest record has come back, two are
    queued, and draining returns them in the order they were added. *)
Example store_fifo_example :
  let a := PromptStore.entry Demo.footer (Demo.env 1000 "0.k3j9x2aa") in
  let b := PromptStore.entry Demo.header (Demo.env 1001 "0.zz81kq07") in
  let c := PromptStore.entry Demo.footer (Demo.env 1002 "0.5c") in
  let ops := [PromptStore.OpAdd Demo.footer (Demo.env 1000 "0.k3j9x2aa");
              PromptStore.OpAdd Demo.header (Demo.env 1001 "0.zz81kq07");
              PromptStore.OpRemoveOldest;
              PromptStore.OpGetOldest;
              PromptStore.OpAdd Demo.footer (Demo.env 1002 "0.5c")] in
  let r := PromptStore.run ops (PromptStore.start []) in
  PromptStore.popped r = [a] ∧ PromptStore.store r = [b; c]
  ∧ PromptStore.popped
      (PromptStore.run (ops ++ PromptStore.drain (PromptStore.store r))
         (PromptStore.start [])) = [a; b; c].
Proof. repeat split; reflexivity. Qed.

(** ** The event channel *)

Lemma write_all_sent m cs : ∀ w,
  sent (foldl (fun w c => write c m w) w cs) = sent w ++ frames m cs.
Proof.
  induction cs as [|c cs IH]; intros w; simpl.
  - by rewrite app_nil_r.
  - rewrite IH. simpl. by rewrite <- app_assoc.
Qed.

Lemma write_all_queue m cs : ∀ w,
  queue (foldl (fun w c => write c m w) w cs) = queue w.
Proof. induction cs as [|c cs IH]; intros w; simpl; [done|]. by rewrite IH. Qed.

Lemma write_all_clients m cs : ∀ w,
  sseClients (foldl (fun w c => write c m w) w cs) = sseClients w.
Proof. induction cs as [|c cs IH]; intros w; simpl; [done|]. by rewrite IH. Qed.

(** [broadcastEvent] writes one frame to each subscriber, in the order
    they subscribed, and touches nothing else. *)
Lemma broadcastEvent_spec ev d w :
  broadcastEvent ev d w =
  {| queue := queue w;
     sseClients := sseClients w;
     sent := sent w ++ frames {| event := ev; data := d |} (sseClients w) |}.
Proof.
  unfold broadcastEvent.
  pose proof (write_all_sent {| event := ev; data := d |} (sseClients w) w) as Hs.
  pose proof (write_all_queue {| event := ev; data := d |} (sseClients w) w) as Hq.
  pose proof (write_all_clients {| event := ev; data := d |} (sseClients w) w) as Hc.
  destruct (foldl _ w (sseClients w)) as [q cs s]. simpl in *. by subst.
Qed.

Lemma broadcastStatus_spec s w :
  broadcastStatus s w =
  {| queue := queue w;
     sseClients := sseClients w;
     sent := sent w ++ frames {| event := "status"; data := status_data s |}
                              (sseClients w) |}.
Proof. apply broadcastEvent_spec. Qed.

(** ** Rendering a record *)

Section Rendering.
Context `{Runtime}.
Import Server.

(** The text of a record: its source is the record's [url], or its
    [pathname] when the [url] is falsy. *)
Lemma prompt_text_inv p text :
  prompt_text p = Some text →
  ∃ source, toString (Js.or (url p) (pathname p)) = Some source
  ∧ text = "# Playground Prompt" +:+ nl +:+ nl +:+
           "**Source:** " +:+ source +:+ nl +:+
           "**Received:** " +:+ toLocaleTimeString (timestamp p) +:+ nl +:+ nl +:+
           "---" +:+ nl +:+ nl +:+ prompt p.
Proof.
  unfold prompt_text. destruct (toString _) as [source|]; [|done].
  simpl. intros [= <-]. by exists source.
Qed.

Lemma delivery_text_inv p text :
  delivery_text p = Some text →
  (verbose = true → renders (pathname p) = true) ∧ prompt_text p = Some text.
Proof.
  unfold delivery_text.
  destruct verbose, (renders (pathname p)); simpl; try done; by intros ->.
Qed.

Lemma delivery_text_intro p :
  (verbose = true → renders (pathname p) = true) →
  delivery_text p = prompt_text p.
Proof.
  unfold delivery_text. intros Hlog.
  destruct verbose; [|done]. by rewrite Hlog.
Qed.

Lemma deliver_text p text : delivery_text p = Some text → deliver p = Text text.
Proof. unfold deliver. by intros ->. Qed.

Lemma deliver_throws p : delivery_text p = None → deliver p = Throws type_error.
Proof. unfold deliver. by intros ->. Qed.

(** A record's text starts with [#], the timeout text with [W]. *)
Lemma delivery_text_not_timeout p text :
  delivery_text p = Some text → text ≠ timeout_text.
Proof.
  intros Hp. apply delivery_text_inv in Hp as [_ Hp].
  apply prompt_text_inv in Hp as (source & _ & ->). discriminate.
Qed.

(** What a call that took a record returns is not the timeout text. *)
Lemma deliver_not_timeout p : deliver p ≠ Text timeout_text.
Proof.
  unfold deliver. destruct (delivery_text p) as [text|] eqn:Hp; [|done].
  intros [= Heq]. by apply (delivery_text_not_timeout p text).
Qed.

(** [playground_get_prompt], case by case: on a non-empty queue a
    [processing] frame goes to every subscriber, nothing else changes,
    and the result is what rendering the oldest record gives. *)
Lemma get_prompt_spec w :
  playground_get_prompt w =
  match queue w with
  | p :: _ =>
      ({| queue := queue w;
          sseClients := sseClients w;
          sent := sent w ++ frames {| event := "status";
                                      data := status_data "processing" |}
                                   (sseClients w) |},
       deliver p)
  | [] => (w, Text no_prompt_text)
  end.
Proof.
  unfold playground_get_prompt, PromptStore.getOldest.
  destruct (queue w) as [|p rest] eqn:Hq; simpl; [done|].
  by rewrite broadcastStatus_spec, Hq.
Qed.

End Rendering.

(** What a template literal makes of the values a body can carry. *)
Example toString_example :
  @toString Demo.runtime (JStr "/design") = Some "/design"
  ∧ @toString Demo.runtime JUndefined = Some "undefined"
  ∧ @toString Demo.runtime
      (JArr [JNum 1%float; JArr [JNum 2%float; JNull]; JObj [("a", JBool true)]])
    = Some "1,2,,[object Object]"
  ∧ @toString Demo.runtime (JObj [("toString", JNum 1%float)]) = None
  ∧ @toString Demo.runtime (JArr [JStr "a"; JObj [("toString", JNull)]]) = None.
Proof. vm_compute. done. Qed.

(** ** Get-oldest *)

(** C7 at its failing input.  [POST /prompt] with body
    [{"prompt":"fix it","pathname":{"toString":1}}] is accepted: the
    record is queued with the object as its [pathname] and the answer
    is 200 with the new id.  [playground_get_prompt] then writes the
    [processing] frame to the subscriber and throws the [TypeError] of
    the template literal instead of returning the record; the record
    stays queued. *)
Theorem get_prompt_throws_after_publishing :
  let accepted :=
    @Server.handle Demo.runtime 3%nat (Demo.post Demo.body_odd_path)
      (Demo.env 1000 "0.k3j9x2aa") Demo.idle in
  let received :=
    (7%nat, {| event := "status";
               data := [("status", JStr "received"); ("id", JStr "p_1000_k3j9x2")] |}) in
  let processing :=
    (7%nat, {| event := "status"; data := [("status", JStr "processing")] |}) in
  accepted =
    ({| queue := [PromptStore.entry Demo.odd_path (Demo.env 1000 "0.k3j9x2aa")];
        sseClients := [7%nat];
        sent := [received] |},
     Reply 200 (Some (JObj [("success", JBool true); ("id", JStr "p_1000_k3j9x2")])))
  ∧ @Server.playground_get_prompt Demo.runtime accepted.1 =
    ({| queue := [PromptStore.entry Demo.odd_path (Demo.env 1000 "0.k3j9x2aa")];
        sseClients := [7%nat];
        sent := [received; processing] |},
     Server.Throws "Cannot convert object to primitive value").
Proof. vm_compute. done. Qed.

(** The scenario of the specification: the footer prompt is shown with
    its source [/design] and stays queued. *)
Example get_prompt_example :
  let '(w, r) := @Server.playground_get_prompt Demo.runtime Demo.one_pending in
  r = Server.Text
        ("# Playground Prompt" +:+ nl +:+ nl +:+ "**Source:** /design" +:+ nl +:+
         "**Received:** 1000" +:+ nl +:+ nl +:+ "---" +:+ nl +:+ nl +:+ "add a footer")
  ∧ queue w = queue Demo.one_pending
  ∧ sent w = [(7%nat, {| event := "status"; data := [("status", JStr "processing")] |})].
Proof. vm_compute. done. Qed.

(** The rest of that scenario: clear reports one prompt removed, and
    get-oldest then finds nothing. *)
Example clear_example :
  let '(w, r) := @Server.playground_clear Demo.one_pending in
  r = Server.Text "Cleared 1 prompt(s)."
  ∧ PromptStore.count (queue w) = 0%nat
  ∧ sent w = [(7%nat, {| event := "status"; data := [("status", JStr "done")] |})]
  ∧ (@Server.playground_get_prompt Demo.runtime w).2
    = Server.Text "No pending prompts from playgrounds."
  ∧ (@Server.playground_clear w).2 = Server.Text "No prompts to clear.".
Proof. vm_compute. done. Qed.

(** ** Port in use *)

(** C4, as stated, fails: with the port taken, interactive mode does not
    exit at all, let alone with a non-zero status. *)
Lemma interactive_port_in_use_not_fatal :
  ¬ ∃ n, n ≠ 0 ∧
    Startup.main [] 4242 (ListenError "EADDRINUSE") Resolved = Exited n.
Proof. intros (n & _ & Hn). vm_compute in Hn. discriminate. Qed.

(** C4, amended.  When help is not requested and the listener reports
    that the port is in use: interactive mode goes on to connect the MCP
    server and keeps running without an HTTP listener, exiting with
    status 1 only if that connection fails; batch mode exits with
    status 1.  Any other listener error exits with status 1 in both
    modes. *)
Theorem port_in_use_by_mode (args : list string) (port : Z) (connect : Settled) :
  Startup.includes args "--help" = false →
  Startup.includes args "-h" = false →
  Startup.main args port (ListenError "EADDRINUSE") connect =
    (if Startup.includes args "--burst" then Exited 1
     else match connect with
          | Resolved => Interactive false
          | Rejected _ => Exited 1
          end)
  ∧ ∀ code, code ≠ "EADDRINUSE" →
      Startup.main args port (ListenError code) connect = Exited 1.
Proof.
  intros Hhelp Hh. unfold Startup.main. rewrite Hhelp, Hh. simpl. split.
  - destruct (Startup.includes args "--burst"); [done|].
    unfold Startup.startServer. simpl. by destruct connect.
  - intros code Hcode.
    unfold Startup.startServer, Startup.burst_createHttpServer,
      Startup.server_createHttpServer.
    rewrite bool_decide_eq_false_2 by done.
    by destruct (Startup.includes args "--burst").
Qed.

Lemma port_in_use_by_mode_witness :
  Startup.includes ["--port"; "4242"; "--verbose"] "--help" = false ∧
  Startup.includes ["--port"; "4242"; "--verbose"] "-h" = false ∧
  Startup.main ["--port"; "4242"; "--verbose"] 4242 (ListenError "EADDRINUSE") Resolved
  = Interactive false.
Proof.
  split; [reflexivity|]. split; [reflexivity|].
  apply (port_in_use_by_mode ["--port"; "4242"; "--verbose"] 4242 Resolved);
    reflexivity.
Defined.

(** ** Submitting a prompt *)

Section Submit.
Context `{Runtime}.

Lemma accepted_prompt_inv parsed s :
  accepted_prompt parsed = Some s →
  ∃ fields, parsed = Some (JObj fields)
            ∧ assoc "prompt" fields = JStr s ∧ s ≠ EmptyString.
Proof.
  unfold accepted_prompt. intros Hacc.
  destruct parsed as [[| | | | |?|fields]|]; try done.
  destruct (assoc "prompt" fields) eqn:Hp; try done.
  case_bool_decide; [done|]. injection Hacc as <-. eauto.
Qed.

(** [server.ts]: a body that does not parse, or parses to something
    without a non-empty string [prompt], is answered 400 with an error
    payload and nothing changes; any other body is queued at the back,
    a [received] frame with the new id is written to every subscriber,
    and the answer is 200 with [success] and the new id, unless the
    process is verbose and the log line cannot render the [pathname] of
    the body: then the record is queued all the same, no frame is
    written and the answer is 400. *)
Lemma server_post_prompt_spec (b : string) (e : AddEnv) (w : World) :
  match accepted_prompt (JSON_parse b) with
  | None =>
      ∃ msg, Server.post_prompt b e w = (w, error_reply msg)
  | Some s =>
      ∃ payload, JSON_parse b = Some payload ∧
      let entry := submitted payload e in
      prompt entry = s ∧
      Server.post_prompt b e w =
      if verbose && negb (renders (get payload "pathname")) then
        ({| queue := queue w ++ [entry];
            sseClients := sseClients w;
            sent := sent w |},
         error_reply "Invalid JSON")
      else
        ({| queue := queue w ++ [entry];
            sseClients := sseClients w;
            sent := sent w ++
                    frames {| event := "status";
                              data := [("status", JStr "received");
                                       ("id", JStr (id entry))] |}
                           (sseClients w) |},
         Reply 200 (Some (JObj [("success", JBool true); ("id", JStr (id entry))])))
  end.
Proof.
  destruct (accepted_prompt (JSON_parse b)) as [s|] eqn:Hacc.
  - apply accepted_prompt_inv in Hacc as (fields & Hparse & Hp & Hs).
    exists (JObj fields). split; [done|].
    unfold Server.post_prompt, submitted. rewrite Hparse. simpl. rewrite Hp. simpl.
    rewrite bool_decide_eq_false_2 by done. simpl.
    split; [done|].
    destruct (verbose && negb (renders (assoc "pathname" fields))); [done|].
    by rewrite broadcastEvent_spec.
  - unfold Server.post_prompt, accepted_prompt in *.
    destruct (JSON_parse b) as [payload|]; [|by eexists].
    destruct payload as [| | | | | |fields]; simpl; try by eexists.
    destruct (assoc "prompt" fields) as [| | | |s| |]; simpl;
      rewrite ?orb_true_r; try by eexists.
    case_bool_decide; [|done]. simpl. by eexists.
Qed.

(** [burst.ts]: the same bodies are refused and the same record is
    queued, but no frame is written and the answer carries no id; and
    the answer is 400, with the record queued, whenever the log line
    cannot render the [pathname] of the body. *)
Lemma burst_post_prompt_spec (b : string) (e : AddEnv) (w : World) :
  match accepted_prompt (JSON_parse b) with
  | None =>
      ∃ msg, Burst.post_prompt b e w = (w, error_reply msg)
  | Some s =>
      ∃ payload, JSON_parse b = Some payload ∧
      prompt (submitted payload e) = s ∧
      Burst.post_prompt b e w =
      ({| queue := queue w ++ [submitted payload e];
          sseClients := sseClients w;
          sent := sent w |},
       if negb (renders (get payload "pathname")) then error_reply "Invalid JSON"
       else Reply 200 (Some (JObj [("success", JBool true)])))
  end.
Proof.
  destruct (accepted_prompt (JSON_parse b)) as [s|] eqn:Hacc.
  - apply accepted_prompt_inv in Hacc as (fields & Hparse & Hp & Hs).
    exists (JObj fields). split; [done|].
    unfold Burst.post_prompt, submitted. rewrite Hparse. simpl. rewrite Hp. simpl.
    rewrite bool_decide_eq_false_2 by done. simpl.
    split; [done|]. by destruct (renders (assoc "pathname" fields)).
  - unfold Burst.post_prompt, accepted_prompt in *.
    destruct (JSON_parse b) as [payload|]; [|by eexists].
    destruct payload as [| | | | | |fields]; simpl; try by eexists.
    destruct (assoc "prompt" fields) as [| | | |s| |]; simpl;
      rewrite ?orb_true_r; try by eexists.
    case_bool_decide; [|done]. simpl. by eexists.
Qed.

End Submit.

(** C3 at its failing input: in batch mode, with connection 7
    subscribed, [POST /prompt] with body
    [{"prompt":"add a footer","pathname":"/design"}] queues the record
    and answers 200, but the answer is [{success: true}] without the id
    and no frame is written to the subscriber. *)
Theorem burst_post_prompt_no_event_no_id :
  @Burst.handle Demo.runtime 3%nat (Demo.post Demo.body_footer)
     (Demo.env 1000 "0.k3j9x2aa") Demo.idle
  = ({| queue := [PromptStore.entry Demo.footer (Demo.env 1000 "0.k3j9x2aa")];
        sseClients := [7%nat];
        sent := [] |},
     Reply 200 (Some (JObj [("success", JBool true)]))).
Proof. vm_compute. reflexivity. Qed.

(** The same request in interactive mode does what C3 says. *)
Example server_post_prompt_example :
  @Server.handle Demo.runtime 3%nat (Demo.post Demo.body_footer)
     (Demo.env 1000 "0.k3j9x2aa") Demo.idle
  = ({| queue := [PromptStore.entry Demo.footer (Demo.env 1000 "0.k3j9x2aa")];
        sseClients := [7%nat];
        sent := [(7%nat, {| event := "status";
                            data := [("status", JStr "received");
                                     ("id", JStr "p_1000_k3j9x2")] |})] |},
     Reply 200 (Some (JObj [("success", JBool true); ("id", JStr "p_1000_k3j9x2")]))).
Proof. vm_compute. reflexivity. Qed.

(** The validation scenarios of the specification. *)
Example server_post_prompt_rejects :
  @Server.handle Demo.runtime 3%nat (Demo.post "{}") (Demo.env 1000 "0.k3j9x2aa")
     Demo.one_pending
  = (Demo.one_pending, error_reply "prompt is required")
  ∧ @Server.handle Demo.runtime 3%nat (Demo.post Demo.body_empty_prompt)
      (Demo.env 1000 "0.k3j9x2aa") Demo.one_pending
  = (Demo.one_pending, error_reply "prompt is required")
  ∧ @Server.handle Demo.runtime 3%nat (Demo.post "{prompt") (Demo.env 1000 "0.k3j9x2aa")
      Demo.one_pending
  = (Demo.one_pending, error_reply "Invalid JSON").
Proof. vm_compute. done. Qed.

(** A body whose [pathname] cannot be rendered is answered 400 with
    the record queued: by the verbose interactive server, which then
    publishes nothing, and by the batch server. *)
Example post_prompt_logged_then_refused :
  @Server.handle Demo.verbose_runtime 3%nat (Demo.post Demo.body_odd_path)
     (Demo.env 1000 "0.k3j9x2aa") Demo.idle
  = ({| queue := [PromptStore.entry Demo.odd_path (Demo.env 1000 "0.k3j9x2aa")];
        sseClients := [7%nat];
        sent := [] |},
     error_reply "Invalid JSON")
  ∧ @Burst.handle Demo.runtime 3%nat (Demo.post Demo.body_odd_path)
      (Demo.env 1000 "0.k3j9x2aa") Demo.idle
  = ({| queue := [PromptStore.entry Demo.odd_path (Demo.env 1000 "0.k3j9x2aa")];
        sseClients := [7%nat];
        sent := [] |},
     error_reply "Invalid JSON").
Proof. vm_compute. done. Qed.

(** A request target [new URL] rejects is not answered at all: the
    listener throws, in either mode. *)
Example bad_target_ends_the_process :
  @Server.handle Demo.runtime 3%nat (Demo.get_request "//")
     (Demo.env 1000 "0.k3j9x2aa") Demo.one_pending
  = (Demo.one_pending, Crash)
  ∧ @Burst.handle Demo.runtime 3%nat (Demo.get_request "//")
      (Demo.env 1000 "0.k3j9x2aa") Demo.one_pending
  = (Demo.one_pending, Crash).
Proof. vm_compute. done. Qed.

(** ** Record ids *)

Section Ids.
Import PromptStore.

Lemma pretty_N_go_no_underscore (x : N) : ∀ s,
  ¬ occurs "_" s → ¬ occurs "_" (pretty_N_go x s).
Proof.
  induction (N.lt_wf_0 x) as [x _ IH]. intros s Hs.
  destruct (decide (x = 0%N)) as [->|Hx].
  - by rewrite pretty_N_go_0.
  - rewrite pretty_N_go_step by lia.
    apply IH; [apply N.div_lt; lia|].
    simpl. intros [Hc|Hin]; [|done].
    unfold pretty_N_char in Hc. repeat case_match; discriminate.
Qed.

Lemma pretty_N_no_underscore (x : N) : ¬ occurs "_" (pretty x).
Proof.
  unfold pretty, pretty_N. case_decide.
  - simpl. intros [Hc|[]]. discriminate.
  - apply pretty_N_go_no_underscore. simpl. tauto.
Qed.

Lemma pretty_Z_no_underscore (z : Z) : ¬ occurs "_" (pretty z).
Proof.
  destruct z as [|p|p]; unfold pretty, pretty_Z.
  - simpl. intros [Hc|[]]. discriminate.
  - apply (pretty_N_no_underscore (N.pos p)).
  - simpl. intros [Hc|Hin]; [discriminate|].
    by apply (pretty_N_no_underscore (N.pos p)).
Qed.

(** Two strings cut at their first underscore agree part by part. *)
Lemma split_at_underscore (a : string) : ∀ b s s',
  ¬ occurs "_" a → ¬ occurs "_" b →
  a +:+ String "_" s = b +:+ String "_" s' → a = b ∧ s = s'.
Proof.
  induction a as [|c a IH]; intros [|c' b] s s' Ha Hb Heq; simpl in *.
  - by injection Heq as ->.
  - injection Heq as <- _. tauto.
  - injection Heq as -> _. tauto.
  - injection Heq as -> Heq.
    destruct (IH b s s') as [-> ->]; tauto.
Qed.

(** The id determines the clock reading and the random suffix it was
    built from. *)
Lemma id_of_key_inj : Inj (=) (=) id_of_key.
Proof.
  intros [z1 s1] [z2 s2]. unfold id_of_key. simpl. intros Heq.
  injection Heq as Heq.
  apply split_at_underscore in Heq as [Hz ->];
    auto using pretty_Z_no_underscore.
  by apply (inj pretty) in Hz as ->.
Qed.

Lemma created_step r o :
  created (step r o) =
  created r ++ match o with OpAdd p e => [entry p e] | _ => [] end.
Proof.
  destruct o; simpl; rewrite ?app_nil_r; try done.
  by destruct (store r).
Qed.

Lemma created_ids_run ops : ∀ r,
  id <$> created (run ops r) =
  (id <$> created r) ++ (id_of_key <$> (id_key <$> add_envs ops)).
Proof.
  induction ops as [|o ops IH]; intros r; simpl.
  - by rewrite app_nil_r.
  - rewrite IH, created_step, !fmap_app, <- app_assoc. by destruct o.
Qed.

(** No method changes a record: what is queued and what [removeOldest]
    returns are records [add] created (or that the queue started with). *)
Lemma records_step st0 r o :
  (∀ x, x ∈ store r ++ popped r → x ∈ st0 ++ created r) →
  ∀ x, x ∈ store (step r o) ++ popped (step r o) → x ∈ st0 ++ created (step r o).
Proof.
  intros Hinv x. rewrite created_step. pose proof (Hinv x) as Hx.
  destruct o; simpl; rewrite ?app_nil_r; try done.
  - rewrite !elem_of_app, list_elem_of_singleton in *. tauto.
  - unfold clear. simpl. rewrite !elem_of_app in *. tauto.
  - destruct (store r) as [|p rest] eqn:Hst; simpl;
      rewrite ?app_nil_r, !elem_of_app, ?list_elem_of_singleton, ?elem_of_cons in *;
      intuition (subst; auto).
Qed.

Lemma records_run st0 ops : ∀ r,
  (∀ x, x ∈ store r ++ popped r → x ∈ st0 ++ created r) →
  ∀ x, x ∈ store (run ops r) ++ popped (run ops r) → x ∈ st0 ++ created (run ops r).
Proof.
  induction ops as [|o ops IH]; intros r Hinv; simpl; [done|].
  apply IH. by apply records_step.
Qed.

(** C9, as stated, fails: two [add] calls that read the same clock value
    and draw the same random number give their records the same id. *)
Lemma add_same_reading_same_id :
  let e := Demo.env 1700000000000 "0.k3j9x2aa" in
  let r := run [OpAdd Demo.footer e; OpAdd Demo.header e] (start []) in
  ¬ NoDup (id <$> created r).
Proof.
  intros e r Hnd. vm_compute in Hnd.
  apply NoDup_cons_1_1 in Hnd. apply Hnd. constructor.
Qed.

(** C9, amended.  From the empty queue of process start, for every
    sequence of calls of the store's methods: the id of a new record is
    [p_], the clock reading, [_] and up to six characters of the random
    draw; if no two [add] calls met the same pair of clock reading and
    random suffix then no two records ever created have the same id; and
    every record queued or returned by [removeOldest] is, unchanged, one
    of the records [add] created. *)
Theorem ids_distinct_when_readings_differ (ops : list Op) :
  NoDup (id_key <$> add_envs ops) →
  (∀ p e, id (entry p e) = id_of_key (id_key e))
  ∧ NoDup (id <$> created (run ops (start [])))
  ∧ ∀ x, x ∈ store (run ops (start [])) ++ popped (run ops (start [])) →
         x ∈ created (run ops (start [])).
Proof.
  intros Hnd. split; [done|]. split.
  - rewrite created_ids_run. simpl.
    by apply (NoDup_fmap_2 id_of_key (Inj0 := id_of_key_inj)).
  - intros x Hx. apply (records_run [] ops (start [])) in Hx; [done|].
    simpl. intros y Hy. by apply elem_of_nil in Hy.
Qed.

End Ids.

Lemma ids_distinct_when_readings_differ_witness :
  let ops := [PromptStore.OpAdd Demo.footer (Demo.env 1000 "0.k3j9x2aa");
              PromptStore.OpAdd Demo.header (Demo.env 1000 "0.zz81kq07");
              PromptStore.OpRemoveOldest;
              PromptStore.OpClear;
              PromptStore.OpAdd Demo.footer (Demo.env 1001 "0.k3j9x2aa")] in
  NoDup (PromptStore.id_key <$> PromptStore.add_envs ops) ∧
  NoDup (id <$> PromptStore.created (PromptStore.run ops (PromptStore.start []))).
Proof.
  intros ops.
  assert (NoDup (PromptStore.id_key <$> PromptStore.add_envs ops)) as Hnd.
  { apply (bool_decide_unpack (NoDup (PromptStore.id_key <$> PromptStore.add_envs ops))).
    vm_compute. exact I. }
  split; [exact Hnd|].
  exact (proj1 (proj2 (ids_distinct_when_readings_differ ops Hnd))).
Defined.

(** ** The arithmetic of doubles

    What [playground_watch] needs of it, from the specification of the
    primitive operations ([Prim2SF] maps a double to its sign, mantissa
    and exponent). *)

Section Doubles.
Import SpecFloat.

(** The order of doubles: if [a] is at most [b] and [b] at most [c],
    then [c] is not below [a]. *)
Lemma SFleb_trans_not_lt a b c :
  SFleb a b = true → SFleb b c = true → SFltb c a = false.
Proof.
  unfold SFleb, SFltb.
  destruct a as [sa|sa| |sa ma ea], b as [sb|sb| |sb mb eb],
    c as [sc|sc| |sc mc ec]; simpl; try done;
    repeat match goal with s : bool |- _ => destruct s end; simpl; try done;
    intros Hab Hbc; compare_cases.
Qed.


Lemma float_le_le_not_lt (d a b : float) :
  (d <=? a)%float = true → (a <=? b)%float = true → (b <? d)%float = false.
Proof.
  rewrite !FloatAxioms.leb_spec, FloatAxioms.ltb_spec.
  apply SFleb_trans_not_lt.
Qed.



(** A number that compares with another is not [NaN]. *)
Lemma float_le_not_nan (x y : float) :
  (x <=? y)%float = true → is_nan x = false.
Proof.
  unfold is_nan. rewrite FloatAxioms.leb_spec, FloatAxioms.eqb_spec.
  unfold SFleb, SFeqb.
  destruct (FloatOps.Prim2SF x) as [sa|sa| |sa ma ea],
    (FloatOps.Prim2SF y) as [sb|sb| |sb mb eb]; simpl; try done;
    repeat match goal with s : bool |- _ => destruct s end; simpl; try done;
    intros _; compare_cases.
Qed.

Lemma float_lt_not_nan (x y : float) :
  (y <? x)%float = true → is_nan x = false.
Proof.
  unfold is_nan. rewrite FloatAxioms.ltb_spec, FloatAxioms.eqb_spec.
  unfold SFltb, SFeqb.
  destruct (FloatOps.Prim2SF x) as [sa|sa| |sa ma ea],
    (FloatOps.Prim2SF y) as [sb|sb| |sb mb eb]; simpl; try done;
    repeat match goal with s : bool |- _ => destruct s end; simpl; try done;
    intros _; compare_cases.
Qed.

(** [Math.min(x, 600)] is 600 for [x] above 600 and [x] for [x] at most
    600. *)
Lemma Math_min_600 (x : float) :
  ((600 <? x)%float = true → Math_min x 600 = 600%float)
  ∧ ((x <=? 600)%float = true → Math_min x 600 = x).
Proof.
  unfold Math_min. split.
  - intros Hx. rewrite (float_lt_not_nan x 600 Hx). simpl. by rewrite Hx.
  - intros Hx. rewrite (float_le_not_nan x 600 Hx). simpl.
    assert ((600 <? x)%float = false) as ->.
    { apply (float_le_le_not_lt x 600 600); [done | reflexivity]. }
    by destruct (x <? 600)%float.
Qed.


End Doubles.


(** ** Watch *)

Section Watch.
Context `{Runtime}.
Import Server.

Lemma run_turns_app a b w : run_turns (a ++ b) w = run_turns b (run_turns a w).
Proof. apply foldl_app. Qed.

Lemma survives_app a : ∀ b w,
  survives (a ++ b) w = survives a w && survives b (run_turns a w).
Proof.
  induction a as [|t a IH]; intros b w; simpl; [done|].
  destruct (turn w t).2; simpl; [apply IH | done].
Qed.

(** One poll: record found before the deadline, nothing found before
    the deadline, or deadline reached. *)
Lemma watch_poll_spec d now w :
  watch_poll d now w =
  if (now <? d)%float then
    match queue w with
    | p :: rest => (Polls.delivered w rest, Some (deliver p))
    | [] => (w, None)
    end
  else (w, Some (Text timeout_text)).
Proof.
  unfold watch_poll, PromptStore.getOldest.
  destruct (now <? d)%float; [|done].
  destruct (queue w) as [|p rest] eqn:Hq; simpl; [done|].
  rewrite broadcastStatus_spec. simpl. by rewrite Hq.
Qed.

Lemma world_at_0 sleeps w : Polls.world_at 0 sleeps w = w.
Proof. done. Qed.

Lemma up_at_S k ts now' sleeps w :
  Polls.up_at (S k) ((ts, now') :: sleeps) w =
  survives ts w && Polls.up_at k sleeps (run_turns ts w).
Proof. unfold Polls.up_at, Polls.turns_before. simpl. apply survives_app. Qed.

Lemma world_at_S k ts now' sleeps w :
  Polls.world_at (S k) ((ts, now') :: sleeps) w =
  Polls.world_at k sleeps (run_turns ts w).
Proof.
  unfold Polls.world_at, Polls.turns_before. simpl. by rewrite run_turns_app.
Qed.

Lemma watch_loop_head d now sleeps w :
  watch_loop d now sleeps w =
  match watch_poll d now w with
  | (w', Some r) => (w', Some r)
  | (w', None) =>
      match sleeps with
      | [] => (w', None)
      | (ts, now') :: rest =>
          if survives ts w' then watch_loop d now' rest (run_turns ts w')
          else (run_turns ts w', None)
      end
  end.
Proof. by destruct sleeps. Qed.

(** The loop, poll by poll: if the polls before poll [k] all came before
    the deadline and found the queue empty, and the process is up when
    poll [k] is due, the call's fate is decided by poll [k] and later
    ones. *)
Lemma watch_loop_skip d sleeps : ∀ now1 w k,
  (k ≤ length sleeps)%nat →
  Polls.up_at k sleeps w = true →
  (∀ j nowj, (j < k)%nat → Polls.clocks now1 sleeps !! j = Some nowj →
     (nowj <? d)%float = true ∧ queue (Polls.world_at j sleeps w) = []) →
  ∃ nowk, Polls.clocks now1 sleeps !! k = Some nowk ∧
  watch_loop d now1 sleeps w =
  watch_loop d nowk (drop k sleeps) (Polls.world_at k sleeps w).
Proof.
  induction sleeps as [|[ts now'] sleeps IH]; intros now1 w k Hk Hup Hpre.
  - assert (k = 0)%nat as -> by (simpl in Hk; lia). by exists now1.
  - destruct k as [|k]; [by exists now1|].
    destruct (Hpre 0%nat now1) as [Hlt Hq]; [lia|done|].
    rewrite world_at_0 in Hq.
    rewrite up_at_S in Hup. apply andb_prop in Hup as [Hts Hup].
    destruct (IH now' (run_turns ts w) k) as (nowk & Hk' & Heq).
    { simpl in Hk. lia. }
    { done. }
    { intros j nowj Hj Hl.
      destruct (Hpre (S j) nowj) as [Hlt' Hq']; [lia|done|].
      by rewrite world_at_S in Hq'. }
    exists nowk. split; [done|].
    rewrite world_at_S. simpl drop. rewrite <- Heq.
    rewrite watch_loop_head, watch_poll_spec, Hlt, Hq. by rewrite Hts.
Qed.

(** The timeout is never above 600 seconds. *)
Lemma watch_timeout_le_600 args : (600 <? watch_timeout args)%float = false.
Proof.
  unfold watch_timeout, Math_min.
  destruct (get_opt args "timeout_seconds") as [| | |x| | |];
    try (vm_compute; reflexivity).
  destruct (is_nan x || is_nan 600); [reflexivity|].
  destruct (600 <? x)%float eqn:Hx; [reflexivity|].
  destruct (x <? 600)%float; [exact Hx|].
  destruct (classify 600); first [exact Hx | reflexivity].
Qed.

(** A numeric timeout is used as given up to 600 seconds, above that
    it is 600. *)
Lemma watch_timeout_number args x :
  get_opt args "timeout_seconds" = JNum x →
  ((600 <? x)%float = true → watch_timeout args = 600%float)
  ∧ ((x <=? 600)%float = true → watch_timeout args = x).
Proof. unfold watch_timeout. intros ->. apply Math_min_600. Qed.

Lemma watch_timeout_default args :
  is_number (get_opt args "timeout_seconds") = false →
  watch_timeout args = 300%float.
Proof.
  unfold watch_timeout.
  by destruct (get_opt args "timeout_seconds"); try (intros _; vm_compute; reflexivity).
Qed.

(** C2, amended.  The timeout is 300 seconds without a numeric
    [timeout_seconds], the number given when it is at most 600, and 600
    when it is above.  The call polls the queue once
    when it starts and once after each one-second sleep.  Take poll [k]
    of a process that is up when it is due, all polls before it having
    been made before the deadline and having found the queue empty.  If
    poll [k] is made before the deadline and finds a record whose
    source can be rendered (and, in a verbose process, whose [pathname]
    can), the call removes the oldest record, writes a [processing]
    frame to every subscriber and returns that record's text: the
    heading, the source, the time of receipt and the prompt.  If poll
    [k] is made at or after the deadline the call returns the timeout
    text and changes nothing, whether or not a record has arrived since
    poll [k-1].  If poll [k] is the last one known, is made before the
    deadline and finds nothing, the call is still asleep.  A record's
    text is never the timeout text, so a call ends in at most one of
    the two ways. *)
Theorem watch_outcome (args : JsVal) (now0 now1 : float)
  (sleeps : list (list Turn * float)) (w : World) (k : nat) (nowk : float) :
  Polls.clocks now1 sleeps !! k = Some nowk →
  (∀ j nowj, (j < k)%nat → Polls.clocks now1 sleeps !! j = Some nowj →
     (nowj <? watch_deadline now0 args)%float = true
     ∧ queue (Polls.world_at j sleeps w) = []) →
  Polls.up_at k sleeps w = true →
  let d := watch_deadline now0 args in
  let wk := Polls.world_at k sleeps w in
  (is_number (get_opt args "timeout_seconds") = false →
     watch_timeout args = 300%float)
  ∧ (∀ x, get_opt args "timeout_seconds" = JNum x →
       ((600 <? x)%float = true → watch_timeout args = 600%float)
       ∧ ((x <=? 600)%float = true → watch_timeout args = x))
  ∧ (600 <? watch_timeout args)%float = false
  ∧ ((nowk <? d)%float = true → ∀ p rest source, queue wk = p :: rest →
       toString (Js.or (url p) (pathname p)) = Some source →
       (verbose = true → renders (pathname p) = true) →
       playground_watch args now0 now1 sleeps w =
       (Polls.delivered wk rest,
        Some (Text ("# Playground Prompt" +:+ nl +:+ nl +:+
                    "**Source:** " +:+ source +:+ nl +:+
                    "**Received:** " +:+ toLocaleTimeString (timestamp p)
                    +:+ nl +:+ nl +:+ "---" +:+ nl +:+ nl +:+ prompt p))))
  ∧ ((nowk <? d)%float = false →
       playground_watch args now0 now1 sleeps w = (wk, Some (Text timeout_text)))
  ∧ ((nowk <? d)%float = true → queue wk = [] → k = length sleeps →
       playground_watch args now0 now1 sleeps w = (wk, None))
  ∧ ∀ p text, delivery_text p = Some text → text ≠ timeout_text.
Proof.
  intros Hk Hpre Hup d wk.
  assert (k ≤ length sleeps)%nat as Hlen.
  { apply lookup_lt_Some in Hk. unfold Polls.clocks in Hk.
    simpl in Hk. rewrite length_fmap in Hk. lia. }
  destruct (watch_loop_skip d sleeps now1 w k Hlen Hup Hpre) as (nowk' & Hk' & Heq).
  rewrite Hk in Hk'. injection Hk' as <-.
  unfold playground_watch. fold d. rewrite Heq. fold wk.
  rewrite watch_loop_head, watch_poll_spec.
  split; [apply watch_timeout_default|]. split; [apply watch_timeout_number|].
  split; [apply watch_timeout_le_600|].
  split; [|split; [|split]].
  - intros Hlt p rest source Hq Hsource Hlog. rewrite Hlt, Hq.
    erewrite deliver_text; [done|].
    rewrite (delivery_text_intro p Hlog). unfold prompt_text. by rewrite Hsource.
  - intros Hge. by rewrite Hge.
  - intros Hlt Hq ->. rewrite Hlt, Hq. by rewrite drop_all.
  - apply delivery_text_not_timeout.
Qed.


End Watch.

(** C2, as stated, fails.  A watch call with a one-second timeout starts
    at clock 1700000000000 on an empty queue; half a second later, still
    half a second before the deadline, a prompt is posted; the loop
    wakes at 1700000001001, past the deadline, and returns the timeout
    text.  The record was available before the deadline, and it is
    still queued: nothing was popped and no [processing] frame was
    written. *)
Lemma watch_misses_arrival_during_last_sleep :
  let args := Demo.timeout_arg 1%float in
  let arrival := Server.THttp 3%nat (Demo.post Demo.body_footer)
                   (Demo.env 1700000000500 "0.k3j9x2aa") in
  let out := @Server.playground_watch Demo.runtime args
               1700000000000%float 1700000000000%float
               [([arrival], 1700000001001%float)] Demo.idle in
  out.2 = Some (Server.Text Server.timeout_text)
  ∧ queue out.1 = [PromptStore.entry Demo.footer (Demo.env 1700000000500 "0.k3j9x2aa")]
  ∧ (1700000000500 <? Server.watch_deadline 1700000000000 args)%float = true
  ∧ sent out.1 = [(7%nat, {| event := "status";
                              data := [("status", JStr "received");
                                       ("id", JStr "p_1700000000500_k3j9x2")] |})].
Proof. vm_compute. done. Qed.

Lemma watch_outcome_witness :
  let t := 1700000000000%float in
  let args := Demo.timeout_arg 5%float in
  let arrival := Server.THttp 3%nat (Demo.post Demo.body_footer)
                   (Demo.env 1700000001500 "0.k3j9x2aa") in
  let sleeps := [([], 1700000001000%float); ([arrival], 1700000002001%float)] in
  let wk := @Polls.world_at Demo.runtime 2 sleeps Demo.idle in
  Polls.clocks t sleeps !! 2%nat = Some 1700000002001%float ∧
  @Polls.up_at Demo.runtime 2 sleeps Demo.idle = true ∧
  @Server.playground_watch Demo.runtime args t t sleeps Demo.idle =
  (Polls.delivered wk [],
   Some (Server.Text
           ("# Playground Prompt" +:+ nl +:+ nl +:+ "**Source:** /design" +:+ nl +:+
            "**Received:** 1700000001500" +:+ nl +:+ nl +:+ "---" +:+ nl +:+ nl +:+
            "add a footer"))).
Proof.
  intros t args arrival sleeps wk. split; [reflexivity|]. split; [reflexivity|].
  assert (∀ j nowj, (j < 2)%nat → Polls.clocks t sleeps !! j = Some nowj →
            (nowj <? @Server.watch_deadline t args)%float = true
            ∧ queue (@Polls.world_at Demo.runtime j sleeps Demo.idle) = []) as Hpre.
  { intros [|[|j]] nowj Hj Hl; [| |lia]; injection Hl as <-;
      (split; reflexivity). }
  pose proof (@watch_outcome Demo.runtime args t t sleeps Demo.idle 2
                1700000002001%float eq_refl Hpre eq_refl) as (_ & _ & _ & Hdeliver & _).
  apply (Hdeliver eq_refl
           (PromptStore.entry Demo.footer (Demo.env 1700000001500 "0.k3j9x2aa"))
           [] "/design"); [reflexivity | reflexivity | discriminate].
Defined.



(** The deadline is a sum of doubles: a timeout of 2^-70 seconds is
    absorbed by the clock reading, so the call times out at once with a
    record queued; with no argument the call waits up to 300 seconds. *)
Example watch_tiny_timeout_example :
  @Server.playground_watch Demo.runtime (Demo.timeout_arg 0x1p-70%float)
    1700000000000%float 1700000000000%float [] Demo.one_pending
  = (Demo.one_pending, Some (Server.Text Server.timeout_text))
  ∧ Server.watch_deadline 1700000000000%float JUndefined = 1700000300000%float
  ∧ Server.watch_deadline 1700000000000%float (Demo.timeout_arg 5000%float)
    = 1700000600000%float.
Proof. vm_compute. done. Qed.

(** ** Two watch calls and one record *)

Section AtMostOnce.
Context `{Runtime}.
Import Concurrent.

Lemma took_not_blocked c p : took c p → blocked_or_timed_out c → False.
Proof.
  unfold took, blocked_or_timed_out. intros -> [[d Hd]|Ht]; [done|].
  apply (deliver_not_timeout p). congruence.
Qed.

(** A call that received the record took it. *)
Lemma received_took c p : received c p → took c p.
Proof. intros (text & Hp & ->). unfold took. by rewrite (deliver_text p text). Qed.

Lemma took_received c p text :
  Server.delivery_text p = Some text → took c p → c = Returned (Server.Text text).
Proof. intros Hp ->. by rewrite (deliver_text p text). Qed.

(** Resuming a call that is blocked or timed out, on a one-record
    queue: it takes the record if it polls in time, else it stays
    blocked or times out and the queue keeps the record. *)
Lemma resume_one p c now w :
  blocked_or_timed_out c → queue w = [p] →
  (took (resume c now w).1 p ∧ queue (resume c now w).2 = [])
  ∨ (blocked_or_timed_out (resume c now w).1 ∧ (resume c now w).2 = w).
Proof.
  intros [[d ->] | ->] Hq; simpl; [|right; split; [by right|done]].
  rewrite watch_poll_spec, Hq.
  destruct (now <? d)%float; simpl.
  - by left.
  - right. split; [by right|done].
Qed.

(** On an empty queue it stays blocked or times out. *)
Lemma resume_none c now w :
  blocked_or_timed_out c → queue w = [] →
  blocked_or_timed_out (resume c now w).1 ∧ (resume c now w).2 = w.
Proof.
  intros [[d ->] | ->] Hq; simpl; [|split; [by right|done]].
  rewrite watch_poll_spec, Hq.
  destruct (now <? d)%float; simpl; (split; [|done]).
  - left. by exists d.
  - by right.
Qed.

(** A call that has taken the record is never resumed. *)
Lemma resume_took c p now w :
  took c p → resume c now w = (c, w).
Proof. by intros ->. Qed.

Lemma shape_step p s r : Shape p s → Shape p (step s r).
Proof.
  intros [HA HB Hq|HA HB Hq|HB HA Hq]; destruct r as [now|now]; simpl.
  - destruct (resume_one p (callA s) now (shared s) HA Hq) as [[Hr Hq']|[Hb Hw]];
      destruct (resume (callA s) now (shared s)) as [c w]; simpl in *.
    + by apply A_took.
    + subst w. by apply nobody_yet.
  - destruct (resume_one p (callB s) now (shared s) HB Hq) as [[Hr Hq']|[Hb Hw]];
      destruct (resume (callB s) now (shared s)) as [c w]; simpl in *.
    + by apply B_took.
    + subst w. by apply nobody_yet.
  - rewrite (resume_took _ p) by done. by apply A_took.
  - destruct (resume_none (callB s) now (shared s) HB Hq) as [Hb Hw].
    destruct (resume (callB s) now (shared s)) as [c w]; simpl in *.
    subst w. by apply A_took.
  - destruct (resume_none (callA s) now (shared s) HA Hq) as [Hb Hw].
    destruct (resume (callA s) now (shared s)) as [c w]; simpl in *.
    subst w. by apply B_took.
  - rewrite (resume_took _ p) by done. by apply B_took.
Qed.

Lemma shape_run p sched : ∀ s, Shape p s → Shape p (run sched s).
Proof.
  induction sched as [|r sched IH]; intros s Hs; simpl; [done|].
  by apply IH, shape_step.
Qed.

(** Once the queue is empty it stays empty: no call adds to it. *)
Lemma delivered_step p s r :
  Shape p s → queue (shared s) = [] → queue (shared (step s r)) = [].
Proof.
  intros Hs Hq. pose proof (shape_step p s r Hs) as [_ _ Hq'|? ? ?|? ? ?]; try done.
  exfalso. destruct Hs as [_ _ Hq''|HA HB _|HB HA _]; [congruence| |].
  - destruct r as [now|now]; simpl in Hq'.
    + rewrite (resume_took _ p) in Hq' by done. simpl in Hq'. congruence.
    + destruct (resume_none (callB s) now (shared s) HB Hq) as [_ Hw].
      destruct (resume (callB s) now (shared s)) as [c w]; simpl in *. congruence.
  - destruct r as [now|now]; simpl in Hq'.
    + destruct (resume_none (callA s) now (shared s) HA Hq) as [_ Hw].
      destruct (resume (callA s) now (shared s)) as [c w]; simpl in *. congruence.
    + rewrite (resume_took _ p) in Hq' by done. simpl in Hq'. congruence.
Qed.

Lemma delivered_run p sched : ∀ s,
  Shape p s → queue (shared s) = [] → queue (shared (run sched s)) = [].
Proof.
  induction sched as [|r sched IH]; intros s Hs Hq; simpl; [done|].
  apply IH; [by apply shape_step | by apply (delivered_step p)].
Qed.

(** Two calls waiting on a one-record queue, resumed in any order: the
    record is queued and nobody has taken it, or it is gone and exactly
    one call has taken it; and once a first resumption polls before its
    call's deadline, it is gone. *)
Lemma two_watchers_shape p w dA dB sched :
  queue w = [p] →
  Shape p (run sched {| callA := Waiting dA; callB := Waiting dB; shared := w |})
  ∧ (∀ first rest, sched = first :: rest → in_time dA dB first →
       queue (shared (run sched {| callA := Waiting dA; callB := Waiting dB;
                                   shared := w |})) = []).
Proof.
  intros Hq.
  set (s0 := {| callA := Waiting dA; callB := Waiting dB; shared := w |}).
  assert (Shape p s0) as Hs0.
  { apply nobody_yet; simpl; [left; by exists dA | left; by exists dB | done]. }
  split; [by apply shape_run|].
  intros first rest -> Hin.
  assert (queue (shared (step s0 first)) = []) as Hq1.
  { destruct first as [now|now]; simpl in *; by rewrite watch_poll_spec, Hq, Hin. }
  exact (delivered_run p rest (step s0 first) (shape_step p s0 first Hs0) Hq1).
Qed.

End AtMostOnce.

(** C6 at its failing input.  The queue holds exactly one record, the
    one [POST /prompt] queued for the body
    [{"prompt":"fix it","pathname":{"toString":1}}], and two watch calls
    with five seconds to go wait on it.  The call resumed first writes
    the [processing] frame, removes the record and then throws the
    [TypeError] of the template literal; the other call finds the queue
    empty and keeps waiting.  The record has left the queue and neither
    caller has received it. *)
Theorem two_watchers_lose_unrenderable_record :
  let s := @Concurrent.run Demo.runtime
             [Concurrent.ResumeA 1700000000000%float;
              Concurrent.ResumeB 1700000000000%float;
              Concurrent.ResumeB 1700000001000%float]
             {| Concurrent.callA := Concurrent.Waiting 1700000005000%float;
                Concurrent.callB := Concurrent.Waiting 1700000005000%float;
                Concurrent.shared := Demo.odd_pending |} in
  queue Demo.odd_pending
    = [PromptStore.entry Demo.odd_path (Demo.env 1000 "0.k3j9x2aa")]
  ∧ Concurrent.callA s
    = Concurrent.Returned (Server.Throws "Cannot convert object to primitive value")
  ∧ Concurrent.callB s = Concurrent.Waiting 1700000005000%float
  ∧ queue (Concurrent.shared s) = []
  ∧ sent (Concurrent.shared s)
    = [(7%nat, {| event := "status"; data := [("status", JStr "processing")] |})].
Proof. vm_compute. done. Qed.

(** The same schedule on a record with a string [pathname]: the call
    resumed first gets the record, the other is still waiting. *)
Example watch_at_most_once_example :
  let p := PromptStore.entry Demo.footer (Demo.env 1000 "0.k3j9x2aa") in
  let s := @Concurrent.run Demo.runtime
             [Concurrent.ResumeB 1700000000000%float;
              Concurrent.ResumeA 1700000000000%float;
              Concurrent.ResumeB 1700000001000%float]
             {| Concurrent.callA := Concurrent.Waiting 1700000005000%float;
                Concurrent.callB := Concurrent.Waiting 1700000005000%float;
                Concurrent.shared := Demo.one_pending |} in
  Some (Concurrent.callB s)
    = (λ text, Concurrent.Returned (Server.Text text))
      <$> @Server.prompt_text Demo.runtime p
  ∧ Concurrent.callA s = Concurrent.Waiting 1700000005000%float
  ∧ queue (Concurrent.shared s) = [].
Proof. vm_compute. done. Qed.

(** ** Batch mode *)

Section Batch.
Context `{Runtime}.
Import Burst.

(** What a turn of the batch server does to the world: nothing, a
    subscription with its acknowledgement, the end of one, or a record
    queued at the back. *)
Lemma burst_turn_spec w t :
  (turn w t).1 = w
  ∨ (∃ c, (turn w t).1 =
          {| queue := queue w;
             sseClients := clients_add c (sseClients w);
             sent := sent w ++ [(c, {| event := "connected";
                                       data := [("status", JStr "ok");
                                                ("mode", JStr "burst")] |})] |})
  ∨ (∃ c, (turn w t).1 =
          {| queue := queue w;
             sseClients := clients_delete c (sseClients w);
             sent := sent w |})
  ∨ (∃ x, (turn w t).1 =
          {| queue := queue w ++ [x]; sseClients := sseClients w; sent := sent w |}).
Proof.
  destruct t as [c r e|c]; simpl.
  - destruct (handle c r e w) as [w' a] eqn:Hh. simpl.
    unfold handle in Hh. repeat case_match; simplify_eq; try by left.
    + right. left. by exists c.
    + pose proof (burst_post_prompt_spec (body r) e w) as Hspec.
      destruct (accepted_prompt (JSON_parse (body r))).
      * destruct Hspec as (payload & _ & _ & Hp). rewrite Hp in Hh.
        injection Hh as <- _. right. right. right. by eexists.
      * destruct Hspec as (msg & Hp). rewrite Hp in Hh. injection Hh as <- _.
        by left.
  - right. right. left. by exists c.
Qed.

(** In batch mode a turn of the event loop can only append to the
    queue. *)
Lemma burst_turn_queue w t : queue w `prefix_of` queue (turn w t).1.
Proof.
  destruct (burst_turn_spec w t) as [-> | [[c ->] | [[c ->] | [x ->]]]]; simpl;
    try done.
  by apply prefix_app_r.
Qed.

Lemma burst_turns_queue ts : ∀ w, queue w `prefix_of` queue (run_turns ts w).
Proof.
  induction ts as [|t ts IH]; intros w; simpl; [done|].
  etrans; [apply burst_turn_queue | apply IH].
Qed.

Lemma countdown_queue sleeps i : ∀ w,
  queue w `prefix_of` queue (countdown i sleeps w).1.
Proof.
  induction i as [|i IH]; intros w; simpl; [done|].
  destruct (survives (sleeps (S i)) w).
  - etrans; [apply burst_turns_queue | apply IH].
  - apply burst_turns_queue.
Qed.

(** The snapshot holds what was pending when the window opened,
    followed by what arrived during it. *)
Lemma snapshot_prefix env w : queue w `prefix_of` snapshot env w.
Proof.
  unfold snapshot, window_end, PromptStore.getAll.
  etrans; [|apply countdown_queue]. by rewrite broadcastStatus_spec.
Qed.

Lemma snapshot_nonempty env w : queue w ≠ [] → (0 < length (snapshot env w))%nat.
Proof.
  intros Hq. destruct (snapshot_prefix env w) as [k Hk]. rewrite Hk.
  destruct (queue w); [done|]. simpl. lia.
Qed.

(** An iteration that finds prompts, up to the start of the command:
    it goes on exactly when the process outlives the window, the
    combined prompt can be built and [spawn] returns. *)
Lemma batch_reaches_spawn claude_path env w :
  queue w ≠ [] →
  batch claude_path env w =
  if negb (window_end env w).2 then ended (window_end env w).1 []
  else
    match fullPrompt (snapshot env w) with
    | None => ended (at_spawn env w) []
    | Some text =>
        if spawn_throws env then ended (at_spawn env w) []
        else if survives (during_run env) (at_spawn env w) then
          {| world :=
               {| queue := [];
                  sseClients := sseClients (after_run env w);
                  sent := sent (after_run env w)
                          ++ frames {| event := "status"; data := status_data "done" |}
                                    (sseClients (after_run env w))
                          ++ frames {| event := "status"; data := status_data "ready" |}
                                    (sseClients (after_run env w)) |};
             spawned := [spawn_claude claude_path text];
             results := [success (child env)];
             running := true |}
        else ended (after_run env w) [spawn_claude claude_path text]
    end.
Proof.
  intros Hq. unfold batch.
  rewrite bool_decide_eq_true_2
    by (unfold PromptStore.count; destruct (queue w); [done | simpl; lia]).
  fold (window_end env w).
  destruct (window_end env w).2 eqn:Hup; simpl; [|done].
  fold (snapshot env w).
  rewrite bool_decide_eq_true_2 by (by apply snapshot_nonempty).
  fold (at_spawn env w).
  destruct (fullPrompt (snapshot env w)) as [text|]; [|done].
  destruct (spawn_throws env); [done|].
  fold (after_run env w).
  destruct (survives (during_run env) (at_spawn env w)); [|done].
  rewrite !broadcastStatus_spec. simpl. by rewrite <- app_assoc.
Qed.

(** An iteration that starts the command and outlives its run. *)
Lemma batch_spec claude_path env w text :
  queue w ≠ [] →
  (window_end env w).2 = true →
  fullPrompt (snapshot env w) = Some text →
  spawn_throws env = false →
  survives (during_run env) (at_spawn env w) = true →
  batch claude_path env w =
  {| world :=
       {| queue := [];
          sseClients := sseClients (after_run env w);
          sent := sent (after_run env w)
                  ++ frames {| event := "status"; data := status_data "done" |}
                            (sseClients (after_run env w))
                  ++ frames {| event := "status"; data := status_data "ready" |}
                            (sseClients (after_run env w)) |};
     spawned := [spawn_claude claude_path text];
     results := [success (child env)];
     running := true |}.
Proof.
  intros Hq Hup Htext Hspawn Hrun.
  by rewrite batch_reaches_spawn, Hup, Htext, Hspawn, Hrun.
Qed.


End Batch.

(** C5 at its failing inputs.  A batch that finds one prompt publishes
    [collecting] and [processing] and then calls [spawn]; when [spawn]
    throws instead of returning a child process, the throw passes
    through [runClaudeCode] and [burstLoop]: the queue is not cleared,
    neither [done] nor [ready] is published, and the loop is over (the
    iteration that would follow is not run).  The same happens, before
    the command is invoked, when the combined prompt cannot be built
    because a queued record has an object with a [toString] key for
    [pathname]. *)
Theorem batch_failure_ends_the_loop :
  let frame s := (7%nat, {| event := "status"; data := [("status", JStr s)] |}) in
  let r := @Burst.burstLoop Demo.runtime None
             [Demo.spawn_throws_env; Demo.burst_env] Demo.one_pending in
  let r' := @Burst.burstLoop Demo.runtime None
              [Demo.burst_env; Demo.burst_env] Demo.odd_pending in
  (Burst.running r = false
   ∧ Burst.spawned r = []
   ∧ queue (Burst.world r) = queue Demo.one_pending
   ∧ sent (Burst.world r) = [frame "collecting"; frame "processing"])
  ∧ (Burst.running r' = false
     ∧ Burst.spawned r' = []
     ∧ queue (Burst.world r')
       = [PromptStore.entry Demo.odd_path (Demo.env 1000 "0.k3j9x2aa");
          PromptStore.entry Demo.header (Demo.env 4000 "0.zz81kq07")]
     ∧ sent (Burst.world r') = [frame "collecting"; frame "processing"]).
Proof. vm_compute. done. Qed.

(** C8 at its failing input.  One prompt is pending when the window
    opens and the body [{"prompt":"fix it","pathname":{"toString":1}}]
    is posted during it (the batch server answers 400 and queues the
    record).  When the window closes two prompts are pending; no
    command is invoked, and the queue still holds both. *)
Theorem batch_with_unrenderable_path_invokes_nothing :
  let r := @Burst.batch Demo.runtime None Demo.odd_arrival_env Demo.one_pending in
  @Burst.snapshot Demo.runtime Demo.odd_arrival_env Demo.one_pending
    = [PromptStore.entry Demo.footer (Demo.env 1000 "0.k3j9x2aa");
       PromptStore.entry Demo.odd_path (Demo.env 4000 "0.zz81kq07")]
  ∧ Burst.spawned r = []
  ∧ Burst.running r = false
  ∧ PromptStore.count (queue (Burst.world r)) = 2%nat.
Proof. vm_compute. done. Qed.

(** The iteration of [Demo.burst_env], evaluated: one process, both
    prompts in submission order under their paths, and the frames
    [collecting], [processing], [done], [ready] in that order. *)
Example batch_example :
  let r := @Burst.batch Demo.runtime None Demo.burst_env Demo.one_pending in
  Burst.spawned r =
    [{| Burst.command := "/opt/homebrew/bin/claude";
        Burst.arguments :=
          ["--print"; "--continue"; "--permission-mode"; "bypassPermissions";
           "You have received 2 prompt(s) from playground files. Process each one:"
           +:+ nl +:+ nl +:+
           "## Prompt 1 (from /design)" +:+ nl +:+ nl +:+ "add a footer"
           +:+ nl +:+ nl +:+ "---" +:+ nl +:+ nl +:+
           "## Prompt 2 (from /cards.html)" +:+ nl +:+ nl +:+ "make the header blue"];
        Burst.shell := false |}]
  ∧ Burst.results r = [false]
  ∧ Burst.running r = true
  ∧ queue (Burst.world r) = []
  ∧ sent (Burst.world r) =
      map (fun s => (7%nat, {| event := "status"; data := [("status", JStr s)] |}))
          ["collecting"; "processing"; "done"; "ready"].
Proof. vm_compute. done. Qed.

(** After a failed batch the loop polls on and serves the next prompt. *)
Example burst_loop_example :
  let arrival := Burst.THttp 4%nat (Demo.post Demo.body_header) (Demo.env 20000 "0.zz81kq07") in
  let first :=
    {| Burst.window _ := [];
       Burst.spawn_throws := false;
       Burst.during_run := [];
       Burst.child := Burst.ChildClose (Some 1);
       Burst.poll_sleep := [arrival] |} in
  let second :=
    {| Burst.window _ := [];
       Burst.spawn_throws := false;
       Burst.during_run := [];
       Burst.child := Burst.ChildClose (Some 0);
       Burst.poll_sleep := [] |} in
  let r := @Burst.burstLoop Demo.runtime None [first; second] Demo.one_pending in
  length (Burst.spawned r) = 2%nat
  ∧ Burst.results r = [false; true]
  ∧ Burst.running r = true
  ∧ queue (Burst.world r) = [].
Proof. vm_compute. done. Qed.


(** * Further properties of the code *)

(** ** The store *)

Section StoreExtras.
Import PromptStore.

Lemma run_app ops1 ops2 r : run (ops1 ++ ops2) r = run ops2 (run ops1 r).
Proof. apply foldl_app. Qed.

Lemma step_from_store r r' o :
  store r = store r' →
  store (step r o) = store (step r' o)
  ∧ ∃ out, popped (step r o) = popped r ++ out
           ∧ popped (step r' o) = popped r' ++ out.
Proof.
  intros Hst. destruct o; simpl; rewrite ?Hst;
    try (split; [done|]; exists []; by rewrite !app_nil_r).
  destruct (store r') as [|p rest]; simpl; (split; [done|]); by eexists.
Qed.

(** What further calls do to the queue and what they return depends on
    the queue alone, not on what was created or returned before. *)
Lemma run_from_store ops : ∀ r r',
  store r = store r' →
  store (run ops r) = store (run ops r')
  ∧ ∃ out, popped (run ops r) = popped r ++ out
           ∧ popped (run ops r') = popped r' ++ out.
Proof.
  induction ops as [|o ops IH]; intros r r' Hst; simpl.
  - split; [done|]. exists []. by rewrite !app_nil_r.
  - destruct (step_from_store r r' o Hst) as [Hs (x & Hx & Hx')].
    destruct (IH _ _ Hs) as [Hs' (out & Ho & Ho')].
    split; [done|]. exists (x ++ out).
    by rewrite Ho, Ho', Hx, Hx', <- !app_assoc.
Qed.

(** X1.  [clear] forgets the past: whatever calls came before it, the
    queue after [clear] and any further calls is the queue those further
    calls build from an empty store, and they return the same records. *)
Theorem clear_starts_afresh (st0 : t) (before after : list Op) :
  store (run (before ++ OpClear :: after) (start st0))
  = store (run after (start []))
  ∧ popped (run (before ++ OpClear :: after) (start st0))
    = popped (run before (start st0)) ++ popped (run after (start [])).
Proof.
  rewrite run_app. simpl.
  destruct (run_from_store after
              {| store := clear (store (run before (start st0)));
                 created := created (run before (start st0));
                 popped := popped (run before (start st0)) |}
              (start []) eq_refl) as [Hs (out & Ho & Ho')].
  split; [exact Hs|]. simpl in Ho, Ho'. by rewrite Ho, Ho'.
Qed.

Lemma length_substring (s : string) : ∀ n m,
  String.length (String.substring n m s) = Nat.min m (String.length s - n).
Proof.
  induction s as [|c s IH]; intros [|n] [|m]; simpl;
    rewrite ?IH, ?Nat.sub_0_r; done.
Qed.

Lemma length_append (a b : string) :
  String.length (a +:+ b) = (String.length a + String.length b)%nat.
Proof.
  induction a as [|c a IH]; [done|].
  change (S (String.length (a +:+ b)) = S (String.length a + String.length b)).
  by rewrite IH.
Qed.

(** X2.  The random part of an id is the characters 2 to 7 of the
    rendering of the random draw: six characters when the rendering has
    at least eight, fewer when it is shorter, none when it has at most
    two (a draw of 0 renders as the single character 0). *)
Theorem id_suffix_length (e : AddEnv) :
  String.length (slice_2_8 (random36 e))
  = Nat.min 6 (String.length (random36 e) - 2)
  ∧ (String.length (slice_2_8 (random36 e)) ≤ 6)%nat
  ∧ fresh_id e = "p_" +:+ pretty (clock_id e) +:+ "_" +:+ slice_2_8 (random36 e)
  ∧ String.length (fresh_id e)
    = (3 + String.length (pretty (clock_id e))
       + Nat.min 6 (String.length (random36 e) - 2))%nat.
Proof.
  unfold slice_2_8. rewrite length_substring.
  split; [done|]. split; [lia|]. split; [done|].
  unfold fresh_id, slice_2_8.
  change ("p_" +:+ pretty (clock_id e) +:+ "_" +:+ String.substring 2 6 (random36 e))
    with (String "p" (String "_" (pretty (clock_id e) +:+
            String "_" (String.substring 2 6 (random36 e))))).
  simpl String.length.
  rewrite length_append. simpl String.length. rewrite length_substring. lia.
Qed.

End StoreExtras.

(** A draw of one half renders as [0.i]: the id ends in the single
    character [i]; a draw of zero renders as [0]: the id ends in [_]. *)
Example id_suffix_example :
  PromptStore.fresh_id (Demo.env 1700000000000 "0.i") = "p_1700000000000_i"
  ∧ PromptStore.fresh_id (Demo.env 1700000000000 "0") = "p_1700000000000_".
Proof. vm_compute. done. Qed.

(** ** Start-up *)

(** X3.  [findClaudePath] returns [CLAUDE_PATH] when the environment
    sets it to a non-empty string and [/opt/homebrew/bin/claude]
    otherwise: the candidates [/usr/local/bin/claude] and [claude] are
    never chosen on their own, so the command is run through a shell
    only when [CLAUDE_PATH] is exactly [claude]. *)
Theorem findClaudePath_first_candidate (claude_path : option string) (p : string) :
  Burst.findClaudePath claude_path =
    match claude_path with
    | Some s => if bool_decide (s = EmptyString) then "/opt/homebrew/bin/claude" else s
    | None => "/opt/homebrew/bin/claude"
    end
  ∧ (Burst.shell (Burst.spawn_claude claude_path p) = true ↔ claude_path = Some "claude")
  ∧ Burst.command (Burst.spawn_claude claude_path p) = Burst.findClaudePath claude_path
  ∧ last (Burst.arguments (Burst.spawn_claude claude_path p)) = Some p.
Proof.
  assert (Burst.findClaudePath claude_path =
    match claude_path with
    | Some s => if bool_decide (s = EmptyString) then "/opt/homebrew/bin/claude" else s
    | None => "/opt/homebrew/bin/claude"
    end) as Hpath.
  { destruct claude_path as [s|]; [|done].
    unfold Burst.findClaudePath. simpl. rewrite filter_cons.
    destruct (decide (s ≠ EmptyString)) as [Hs|Hs].
    - by rewrite bool_decide_eq_false_2.
    - apply dec_stable in Hs. subst s. done. }
  split; [exact Hpath|]. split; [|done].
  unfold Burst.spawn_claude. simpl. rewrite Hpath.
  destruct claude_path as [s|].
  - case_bool_decide as Hs.
    + subst s. split; [done|]. by intros [= ?].
    + rewrite bool_decide_eq_true. split; [by intros ->|by intros [= ->]].
  - split; [done|]. done.
Qed.

(** X4.  What [cli.ts] makes of the flags and of the start-up: with
    [--help] or [-h] the process exits with status 0 and starts nothing,
    whatever the other flags; it never exits with a status other than 0
    or 1, and with status 0 only for help; when the listener binds (and,
    in interactive mode, the MCP server connects) it keeps running, in
    batch mode exactly when [--burst] is given. *)
Theorem cli_exit_status (args : list string) (port : Z) (l : ListenEvent)
  (connect : Settled) :
  let help := Startup.includes args "--help" || Startup.includes args "-h" in
  (Startup.main args port l connect = Exited 0 ↔ help = true)
  ∧ (∀ n, Startup.main args port l connect = Exited n → n = 0 ∨ n = 1)
  ∧ (help = false → l = Listening →
     Startup.main args port l connect =
       if Startup.includes args "--burst" then Batch
       else match connect with
            | Resolved => Interactive true
            | Rejected _ => Exited 1
            end).
Proof.
  cbv zeta. unfold Startup.main.
  destruct (Startup.includes args "--help" || Startup.includes args "-h").
  - split; [done|]. split; [|done]. intros n [= <-]. by left.
  - destruct (Startup.includes args "--burst").
    + unfold Startup.burst_createHttpServer.
      destruct l as [|code]; [|case_bool_decide]; simpl;
        (split; [done|]); (split; [|done]); intros n [=]; auto.
    + unfold Startup.startServer, Startup.server_createHttpServer.
      destruct l as [|code]; [|case_bool_decide]; destruct connect; simpl;
        (split; [done|]); (split; [|done]); intros n [=]; auto.
Qed.

Lemma cli_exit_status_witness :
  (Startup.includes ["--burst"; "--port"; "5000"] "--help"
   || Startup.includes ["--burst"; "--port"; "5000"] "-h") = false
  ∧ Startup.main ["--burst"; "--port"; "5000"] 5000 Listening Resolved = Batch.
Proof.
  split; [reflexivity|].
  apply (cli_exit_status ["--burst"; "--port"; "5000"] 5000 Listening Resolved);
    reflexivity.
Defined.

(** ** Turns of the interactive server *)

Section ServerTurns.
Context `{Runtime}.
Import ServerRun.

(** What the listener does, by the branch the request reaches. *)
Lemma server_handle_effect c r e w :
  Effect w (Server.THttp c r e) (Server.handle c r e w).1.
Proof.
  assert (is_post_prompt r = false → posted (Server.THttp c r e) = []) as Hnone.
  { intros Hr. unfold posted. by rewrite Hr. }
  unfold Server.handle.
  case_bool_decide as Hopt.
  { apply effect_none, Hnone. unfold is_post_prompt. by rewrite Hopt. }
  destruct (route r) as [path|] eqn:Hroute.
  2:{ apply effect_none, Hnone. unfold is_post_prompt. rewrite Hroute.
      by rewrite andb_false_r. }
  case_bool_decide as Hget; simpl.
  { assert (is_post_prompt r = false) as Hr.
    { unfold is_post_prompt. by rewrite Hget. }
    case_bool_decide as Hh; simpl; [by apply effect_none, Hnone|].
    case_bool_decide as He; simpl.
    2:{ rewrite (bool_decide_eq_false_2 (method r = "POST")) by (by rewrite Hget).
        by apply effect_none, Hnone. }
    apply (effect_subscribe w _ c); [|by apply Hnone].
    unfold subscribes, is_get_events. rewrite Hroute, He.
    by rewrite !bool_decide_eq_true_2. }
  case_bool_decide as Hpost; simpl.
  2:{ apply effect_none, Hnone. unfold is_post_prompt.
      by rewrite bool_decide_eq_false_2. }
  case_bool_decide as Hp; simpl.
  2:{ apply effect_none, Hnone. unfold is_post_prompt. rewrite Hroute.
      rewrite (bool_decide_eq_false_2 (Some path = Some "/prompt")) by congruence.
      by rewrite andb_false_r. }
  assert (is_post_prompt r = true) as Hr.
  { unfold is_post_prompt. rewrite Hroute, Hp. by rewrite !bool_decide_eq_true_2. }
  pose proof (server_post_prompt_spec (body r) e w) as Hspec.
  destruct (accepted_prompt (JSON_parse (body r))) as [s|] eqn:Hacc.
  + destruct Hspec as (payload & Hparse & _ & ->).
    assert (posted (Server.THttp c r e) = [submitted payload e]) as Hposted.
    { unfold posted. rewrite Hparse in Hacc. by rewrite Hr, Hparse, Hacc. }
    destruct (verbose && negb (renders (get payload "pathname"))); simpl.
    * by apply effect_post_unannounced.
    * by apply effect_post.
  + destruct Hspec as (msg & ->). simpl.
    apply effect_none. unfold posted. rewrite Hr.
    destruct (JSON_parse (body r)); [|done]. by rewrite Hacc.
Qed.

(** Every turn has one of the six effects. *)
Lemma server_turn_effect (w : World) (t : Server.Turn) :
  Effect w t (Server.run_turn w t).
Proof.
  destruct t as [c r e|c| | | |d now]; unfold Server.run_turn; simpl.
  - pose proof (server_handle_effect c r e w) as He.
    by destruct (Server.handle c r e w).
  - unfold Server.close, set_clients. by apply effect_close.
  - rewrite get_prompt_spec.
    destruct (queue w) as [|p rest] eqn:Hq; simpl; [by apply effect_none|].
    rewrite <- Hq. apply effect_status; [by left|done|done].
  - unfold Server.playground_list_pending.
    case_bool_decide; [by apply effect_none|].
    destruct (Server.pending_lines _); by apply effect_none.
  - unfold Server.playground_clear, set_queue. rewrite broadcastStatus_spec. simpl.
    apply effect_status; [by right|apply suffix_nil|done].
  - rewrite watch_poll_spec.
    destruct (now <? d)%float; [|by apply effect_none].
    destruct (queue w) as [|p rest] eqn:Hq; simpl; [by apply effect_none|].
    unfold Polls.delivered.
    apply effect_status; [by left| |done].
    rewrite Hq. by apply suffix_cons_r.
Qed.

Lemma frames_not_to c m cs : c ∉ cs → Forall (fun f => f.1 ≠ c) (frames m cs).
Proof.
  intros Hc. unfold frames. apply Forall_forall. intros f Hf.
  apply list_elem_of_fmap in Hf as (c' & -> & Hc'). simpl. by intros ->.
Qed.

Lemma clients_add_NoDup c cs : NoDup cs → NoDup (clients_add c cs).
Proof.
  intros Hnd. unfold clients_add. case_bool_decide as Hc; [done|].
  apply NoDup_app. split; [done|]. split; [|apply NoDup_singleton].
  intros x Hx Hx'. apply list_elem_of_singleton in Hx'. by subst.
Qed.

Lemma clients_add_elem c c' cs : c' ∈ clients_add c cs ↔ c' = c ∨ c' ∈ cs.
Proof.
  unfold clients_add. case_bool_decide as Hc.
  - split; [by right|]. by intros [->|].
  - rewrite elem_of_app, list_elem_of_singleton. tauto.
Qed.

Lemma clients_delete_elem c c' cs : c' ∈ clients_delete c cs ↔ c' ≠ c ∧ c' ∈ cs.
Proof. unfold clients_delete. by rewrite list_elem_of_filter. Qed.

(** X5.  Across any run of turns the queue is a back part of everything
    that was in it or was submitted since, in submission order: records
    leave only from the front (a watch call) or all at once (clear), and
    no turn reorders, edits or duplicates a record. *)
Theorem server_queue_is_suffix (ts : list Server.Turn) (w : World) :
  queue (Server.run_turns ts w) `suffix_of` queue w ++ flat_map posted ts.
Proof.
  assert (∀ ts w all, queue w `suffix_of` all →
            queue (Server.run_turns ts w) `suffix_of` all ++ flat_map posted ts)
    as Hgen.
  { clear ts w. induction ts as [|t ts IH]; intros w all Hw; simpl.
    - by rewrite app_nil_r.
    - rewrite app_assoc. apply IH.
      destruct (server_turn_effect w t) as [Hp|c _ Hp|c Hp|x Hp|x Hp|s q _ Hq Hp];
        rewrite Hp; simpl; rewrite ?app_nil_r; try done.
      + destruct Hw as [k ->]. exists k. by rewrite app_assoc.
      + destruct Hw as [k ->]. exists k. by rewrite app_assoc.
      + by etrans. }
  by apply Hgen.
Qed.

Lemma server_turn_clients w t c :
  c ∈ sseClients (Server.run_turn w t) → c ∈ sseClients w ∨ subscribes c t = true.
Proof.
  destruct (server_turn_effect w t) as [Hp|c' Hs Hp|c' Hp|x Hp|x Hp|s q _ Hq Hp];
    simpl; auto.
  - rewrite clients_add_elem. intros [->|]; auto.
  - rewrite clients_delete_elem. intros [_ ?]. auto.
Qed.

(** X6.  The subscriber set never holds a connection twice, so every
    broadcast writes exactly one frame to each subscriber, in
    subscription order. *)
Theorem server_subscribers_distinct (ts : list Server.Turn) (w : World)
  (ev : string) (d : list (string * JsVal)) :
  NoDup (sseClients w) →
  let w' := Server.run_turns ts w in
  NoDup (sseClients w')
  ∧ sent (broadcastEvent ev d w')
    = sent w' ++ frames {| event := ev; data := d |} (sseClients w')
  ∧ NoDup (frames {| event := ev; data := d |} (sseClients w'))
  ∧ ∀ c, c ∈ sseClients w' ↔
         (c, {| event := ev; data := d |})
         ∈ frames {| event := ev; data := d |} (sseClients w').
Proof.
  intros Hnd. cbv zeta.
  assert (NoDup (sseClients (Server.run_turns ts w))) as Hnd'.
  { revert w Hnd. induction ts as [|t ts IH]; intros w Hnd; simpl; [done|].
    apply IH.
    destruct (server_turn_effect w t) as [Hp|c' Hs Hp|c' Hp|x Hp|x Hp|s q _ Hq Hp];
      simpl; try done.
    - by apply clients_add_NoDup.
    - unfold clients_delete. by apply NoDup_filter. }
  split; [done|]. split; [by rewrite broadcastEvent_spec|].
  split.
  - unfold frames.
    assert (Inj (=) (=) (fun c : Client => (c, {| event := ev; data := d |})))
      as Hinj by (by intros c1 c2 [= ->]).
    by apply (NoDup_fmap_2 _ (Inj0 := Hinj)).
  - intros c. unfold frames. rewrite list_elem_of_fmap. split.
    + intros Hc. by exists c.
    + by intros (c' & [= ->] & Hc').
Qed.

(** X7.  A connection that has closed its event stream is written to no
    more: whatever turns follow, as long as it does not subscribe again,
    it stays out of the subscriber set and none of the frames written
    later is addressed to it. *)
Theorem closed_stream_gets_nothing (c : Client) (ts : list Server.Turn) (w : World) :
  Forall (fun t => subscribes c t = false) ts →
  let w' := Server.run_turns ts (Server.close c w) in
  (c ∉ sseClients w')
  ∧ (∃ later, sent w' = sent w ++ later ∧ Forall (fun f => f.1 ≠ c) later).
Proof.
  intros Hts. cbv zeta.
  assert (c ∉ sseClients (Server.close c w)) as Hc.
  { unfold Server.close. simpl. rewrite clients_delete_elem. by intros [? _]. }
  change (sent w) with (sent (Server.close c w)).
  generalize dependent (Server.close c w). clear w.
  induction Hts as [|t ts Ht Hts IH]; intros w Hc; simpl.
  - split; [done|]. exists []. by rewrite app_nil_r.
  - assert (c ∉ sseClients (Server.run_turn w t)) as Hc'.
    { intros Hin. apply server_turn_clients in Hin as [?|Hs]; [done|congruence]. }
    destruct (IH _ Hc') as [Hout (later & Hl & Hfor)].
    split; [done|].
    assert (∃ now, sent (Server.run_turn w t) = sent w ++ now
                   ∧ Forall (fun f => f.1 ≠ c) now) as (now & Hn & Hnow).
    { destruct (server_turn_effect w t) as [Hp|c' Hs Hp|c' Hp|x Hp|x Hp|s q _ Hq Hp];
        simpl.
      - exists []. by rewrite app_nil_r.
      - eexists. split; [done|]. apply Forall_singleton. simpl.
        intros ->. congruence.
      - exists []. by rewrite app_nil_r.
      - eexists. split; [done|]. by apply frames_not_to.
      - exists []. by rewrite app_nil_r.
      - eexists. split; [done|]. by apply frames_not_to. }
    exists (now ++ later). split.
    + by rewrite Hl, Hn, <- app_assoc.
    + by apply Forall_app.
Qed.

(** X8.  The interactive server writes frames only at the end of the
    log, and only four kinds of them: the acknowledgement of a
    subscription and the statuses [received] (with an id), [processing]
    and [done]; it never publishes [collecting] or [ready]. *)
Theorem server_status_vocabulary (ts : list Server.Turn) (w : World) :
  ∃ later, sent (Server.run_turns ts w) = sent w ++ later
           ∧ Forall (fun f => server_frame f.2) later.
Proof.
  revert w. induction ts as [|t ts IH]; intros w; simpl.
  - exists []. by rewrite app_nil_r.
  - destruct (IH (Server.run_turn w t)) as (later & Hl & Hfor).
    assert (∃ now, sent (Server.run_turn w t) = sent w ++ now
                   ∧ Forall (fun f => server_frame f.2) now) as (now & Hn & Hnow).
    { assert (∀ m cs, server_frame m → Forall (fun f => server_frame f.2) (frames m cs))
        as Hframes.
      { intros m cs Hm. unfold frames. apply Forall_forall. intros f Hf.
        by apply list_elem_of_fmap in Hf as (c' & -> & _). }
      destruct (server_turn_effect w t) as [Hp|c' Hs Hp|c' Hp|x Hp|x Hp|s q Hs Hq Hp];
        simpl.
      - exists []. by rewrite app_nil_r.
      - eexists. split; [done|]. apply Forall_singleton. by left.
      - exists []. by rewrite app_nil_r.
      - eexists. split; [done|]. apply Hframes. right. left. by eexists.
      - exists []. by rewrite app_nil_r.
      - eexists. split; [done|]. apply Hframes.
        destruct Hs as [-> | ->]; unfold server_frame; auto. }
    exists (now ++ later). split.
    + by rewrite Hl, Hn, <- app_assoc.
    + by apply Forall_app.
Qed.

End ServerTurns.

Lemma server_subscribers_distinct_witness :
  let events := {| method := "GET"; req_url := "/events"; body := EmptyString |} in
  let ts := [Server.THttp 9%nat events (Demo.env 1000 "0.k3j9x2aa");
             Server.THttp 9%nat events (Demo.env 1001 "0.k3j9x2aa");
             Server.TClose 7%nat] in
  NoDup (sseClients Demo.idle)
  ∧ NoDup (sseClients (@Server.run_turns Demo.runtime ts Demo.idle)).
Proof.
  intros events ts.
  assert (NoDup (sseClients Demo.idle)) as Hnd.
  { apply (bool_decide_unpack (NoDup (sseClients Demo.idle))). vm_compute. exact I. }
  split; [exact Hnd|].
  exact (proj1 (@server_subscribers_distinct Demo.runtime ts Demo.idle
                  "status" (status_data "processing") Hnd)).
Defined.

Lemma closed_stream_gets_nothing_witness :
  let events := {| method := "GET"; req_url := "/events"; body := EmptyString |} in
  let ts := [Server.THttp 9%nat events (Demo.env 1000 "0.k3j9x2aa");
             Server.TGetPrompt;
             Server.THttp 3%nat (Demo.post Demo.body_header) (Demo.env 1001 "0.zz81kq07");
             Server.TClear] in
  Forall (fun t => @ServerRun.subscribes Demo.runtime 7%nat t = false) ts
  ∧ 7%nat ∉ sseClients (@Server.run_turns Demo.runtime ts
                          (Server.close 7%nat Demo.one_pending)).
Proof.
  intros events ts.
  assert (Forall (fun t => @ServerRun.subscribes Demo.runtime 7%nat t = false) ts) as Hts.
  { repeat (apply Forall_cons; split; [reflexivity|]). apply Forall_nil_2. }
  split; [exact Hts|].
  exact (proj1 (@closed_stream_gets_nothing Demo.runtime 7%nat ts Demo.one_pending Hts)).
Defined.

(** The frames of that run, evaluated: connection 7 closed before
    anything was published and got no frame; connection 9 got its
    acknowledgement and then every status. *)
Example closed_stream_example :
  let events := {| method := "GET"; req_url := "/events"; body := EmptyString |} in
  let ts := [Server.THttp 9%nat events (Demo.env 1000 "0.k3j9x2aa");
             Server.TGetPrompt;
             Server.THttp 3%nat (Demo.post Demo.body_header) (Demo.env 1001 "0.zz81kq07");
             Server.TClear] in
  sent (@Server.run_turns Demo.runtime ts (Server.close 7%nat Demo.one_pending))
  = [(9%nat, {| event := "connected"; data := [("status", JStr "ok")] |});
     (9%nat, {| event := "status"; data := [("status", JStr "processing")] |});
     (9%nat, {| event := "status";
                data := [("status", JStr "received"); ("id", JStr "p_1001_zz81kq")] |});
     (9%nat, {| event := "status"; data := [("status", JStr "done")] |})].
Proof. vm_compute. reflexivity. Qed.

(** ** Tool calls in sequence *)

Section ToolCalls.
Context `{Runtime}.
Import ServerRun.

Lemma watch_in_time_delivers toolArgs now0 now1 w p rest :
  starts_in_time (toolArgs, now0, now1) → queue w = p :: rest →
  Server.playground_watch toolArgs now0 now1 [] w
  = (Polls.delivered w rest, Some (Server.deliver p)).
Proof.
  unfold starts_in_time. intros Hin Hq. unfold Server.playground_watch.
  by rewrite watch_loop_head, watch_poll_spec, Hin, Hq.
Qed.

(** X9.  Watch calls made one after the other, each starting before its
    deadline, on a queue holding at least as many records: the calls
    take the records in queue order, oldest first, one each, and the
    queue is left with the records behind them.  Each call returns the
    text of the record it took, or throws when that text cannot be
    built. *)
Theorem watch_calls_drain_in_order (calls : list (JsVal * float * float)) (w : World) :
  Forall starts_in_time calls →
  (length calls ≤ length (queue w))%nat →
  (watch_each calls w).2
  = (fun p => Some (match Server.delivery_text p with
                    | Some text => Server.Text text
                    | None => Server.Throws type_error
                    end))
      <$> take (length calls) (queue w)
  ∧ queue (watch_each calls w).1 = drop (length calls) (queue w)
  ∧ sseClients (watch_each calls w).1 = sseClients w.
Proof.
  intros Hin. revert w.
  induction Hin as [|[[toolArgs now0] now1] calls Hcall Hin IH]; intros w Hlen.
  - done.
  - destruct (queue w) as [|p rest] eqn:Hq; [simpl in Hlen; lia|].
    simpl watch_each.
    rewrite (watch_in_time_delivers _ _ _ _ p rest Hcall Hq).
    destruct (IH (Polls.delivered w rest)) as (Hr & Hqueue & Hcs).
    { simpl in *. lia. }
    destruct (watch_each calls (Polls.delivered w rest)) as [w2 rs].
    simpl in *. by rewrite Hr.
Qed.

(** X10.  Get-oldest does not consume: on a non-empty queue whose
    oldest record can be rendered, any number of get-oldest calls in a
    row return the text of that same record and leave the queue as it
    was, each writing a [processing] frame to every subscriber; and a
    watch call that then starts before its deadline returns that same
    text once more and removes the record. *)
Theorem get_prompt_hands_out_again (n : nat) (w : World) (p : PlaygroundPrompt)
  (rest : PromptStore.t) (toolArgs : JsVal) (now0 now1 : float) (text : string) :
  queue w = p :: rest →
  Server.delivery_text p = Some text →
  starts_in_time (toolArgs, now0, now1) →
  let w' := (get_prompt_times n w).1 in
  (get_prompt_times n w).2 = replicate n (Server.Text text)
  ∧ queue w' = queue w
  ∧ sseClients w' = sseClients w
  ∧ sent w' = sent w ++ concat (replicate n
                (frames {| event := "status"; data := status_data "processing" |}
                        (sseClients w)))
  ∧ Server.playground_watch toolArgs now0 now1 [] w'
    = (Polls.delivered w' rest, Some (Server.Text text)).
Proof.
  intros Hq Htext Hin. cbv zeta.
  assert ((get_prompt_times n w).2 = replicate n (Server.Text text)
          ∧ queue (get_prompt_times n w).1 = queue w
          ∧ sseClients (get_prompt_times n w).1 = sseClients w
          ∧ sent (get_prompt_times n w).1 = sent w ++ concat (replicate n
                (frames {| event := "status"; data := status_data "processing" |}
                        (sseClients w)))) as (Hr & Hqueue & Hcs & Hsent).
  { revert w Hq. induction n as [|n IH]; intros w Hq; simpl.
    - by rewrite app_nil_r.
    - rewrite get_prompt_spec, Hq, (deliver_text p text Htext).
      destruct (IH {| queue := p :: rest; sseClients := sseClients w;
                      sent := sent w ++ frames {| event := "status";
                                                  data := status_data "processing" |}
                                               (sseClients w) |})
        as (Hr & Hqueue & Hcs & Hsent); [done|].
      destruct (get_prompt_times n _) as [w2 rs]. simpl in *.
      rewrite Hr, Hqueue, Hcs, Hsent. by rewrite <- app_assoc. }
  repeat (split; [done|]).
  rewrite <- (deliver_text p text Htext).
  apply watch_in_time_delivers; [done|]. by rewrite Hqueue.
Qed.

Lemma server_handle_queue c r e w :
  queue (Server.handle c r e w).1 = queue w ++ posted (Server.THttp c r e).
Proof.
  unfold Server.handle, posted, is_post_prompt.
  case_bool_decide as Hopt; simpl.
  { rewrite (bool_decide_eq_false_2 (method r = "POST")) by (by rewrite Hopt).
    simpl. by rewrite app_nil_r. }
  destruct (route r) as [path|] eqn:Hroute; simpl.
  2:{ rewrite andb_false_r. by rewrite app_nil_r. }
  case_bool_decide as Hget; simpl.
  { rewrite (bool_decide_eq_false_2 (method r = "POST")) by (by rewrite Hget).
    simpl. rewrite app_nil_r. by repeat case_bool_decide. }
  case_bool_decide as Hpost; simpl; [|by rewrite app_nil_r].
  case_bool_decide as Hp; simpl.
  2:{ rewrite (bool_decide_eq_false_2 (Some path = Some "/prompt")) by congruence.
      by rewrite app_nil_r. }
  rewrite Hp, (bool_decide_eq_true_2 (Some "/prompt" = Some "/prompt")) by done.
  pose proof (server_post_prompt_spec (body r) e w) as Hspec.
  destruct (accepted_prompt (JSON_parse (body r))) as [s|] eqn:Hacc.
  - destruct Hspec as (payload & Hparse & _ & ->). rewrite Hparse.
    by destruct (verbose && negb (renders (get payload "pathname"))).
  - destruct Hspec as (msg & ->). simpl.
    destruct (JSON_parse (body r)); by rewrite app_nil_r.
Qed.

(** X11.  The health query changes nothing and reports the queue
    length; asked after any request that did not end the process, it
    reports the length before that request plus the number of records
    the request queued: one for a [POST /prompt] whose body carries a
    non-empty string [prompt], none otherwise (a refused prompt,
    another route, a preflight).  The record is queued and counted
    also when the answer to the [POST] was 400 because the log line of
    a verbose process could not render the [pathname]. *)
Theorem health_counts_queued_posts (c c' : Client) (r health : Request)
  (e e' : AddEnv) (w : World) :
  method health = "GET" → route health = Some "/health" →
  (Server.handle c r e w).2 ≠ Crash →
  let w1 := (Server.handle c r e w).1 in
  Server.handle c' health e' w1
  = (w1, Reply 200 (Some (JObj
       [("status", JStr "ok");
        ("pending_prompts",
         JNum (number_of_nat (PromptStore.count (queue w)
                              + length (posted (Server.THttp c r e)))))])))
  ∧ (length (posted (Server.THttp c r e)) ≤ 1)%nat
  ∧ (∀ x, posted (Server.THttp c r e) = [x] →
       (Server.handle c r e w).2
       = Reply 200 (Some (JObj [("success", JBool true); ("id", JStr (id x))]))
       ∨ (verbose = true
          ∧ (Server.handle c r e w).2 = error_reply "Invalid JSON")).
Proof.
  intros Hget Hroute _. cbv zeta. split; [|split].
  - unfold Server.handle at 1. rewrite Hget, Hroute. simpl.
    rewrite server_handle_queue. unfold PromptStore.count. by rewrite length_app.
  - unfold posted. repeat case_match; simpl; lia.
  - intros x Hx. unfold posted in Hx.
    destruct (is_post_prompt r) eqn:Hr; [|done].
    apply andb_prop in Hr as [Hm Hp].
    apply bool_decide_eq_true in Hm. apply bool_decide_eq_true in Hp.
    unfold Server.handle. rewrite Hm, Hp. simpl.
    pose proof (server_post_prompt_spec (body r) e w) as Hspec.
    destruct (JSON_parse (body r)) as [payload|] eqn:Hparse; [|done].
    destruct (accepted_prompt (Some payload)) as [s|] eqn:Hacc; [|done].
    injection Hx as <-.
    destruct Hspec as (payload' & [= <-] & _ & ->).
    destruct verbose; simpl; [|by left].
    destruct (renders (get payload "pathname")); simpl; [by left | by right].
Qed.

(** The lines of the listing, one per record, in queue order. *)
Lemma pending_lines_inv all lines :
  Server.pending_lines all = Some lines →
  length lines = length all
  ∧ ∀ i p, all !! i = Some p →
      ∃ path, toString (pathname p) = Some path
      ∧ lines !! i =
        Some (pretty (i + 1)%nat +:+ ". " +:+ path +:+ " (" +:+
              pretty (String_length (prompt p)) +:+ " chars, " +:+
              toLocaleTimeString (timestamp p) +:+ ")").
Proof.
  unfold Server.pending_lines. intros Hm. apply mapM_Some in Hm.
  split.
  { apply Forall2_length in Hm. by rewrite length_imap in Hm. }
  intros i p Hi.
  assert (imap Server.pending_line all !! i = Some (Server.pending_line i p)) as Hs.
  { by rewrite list_lookup_imap, Hi. }
  destruct (Forall2_lookup_l _ _ _ _ _ Hm Hs) as (s & Hsi & Hline).
  unfold Server.pending_line in Hline.
  destruct (toString (pathname p)) as [path|]; [|done].
  simpl in Hline. injection Hline as <-. by exists path.
Qed.

Lemma pending_lines_total all :
  Forall (fun p => renders (pathname p) = true) all →
  is_Some (Server.pending_lines all).
Proof.
  intros Hall. unfold Server.pending_lines. apply mapM_is_Some.
  apply Forall_lookup. intros i line Hline.
  rewrite list_lookup_imap in Hline.
  destruct (all !! i) as [p|] eqn:Hi; [|done].
  simpl in Hline. injection Hline as <-.
  pose proof (Forall_lookup_1 _ _ _ _ Hall Hi) as Hp. simpl in Hp.
  unfold renders in Hp. unfold Server.pending_line. simpl.
  by destruct (toString (pathname p)).
Qed.

(** X12.  List-pending changes nothing.  On an empty queue it answers
    that nothing is pending.  If the [pathname] of some queued record
    cannot be rendered it throws.  Otherwise its text is the heading
    followed by one line per record, in queue order: the index from 1,
    the pathname, the length of the prompt in UTF-16 code units and the
    time of receipt. *)
Theorem list_pending_lists_in_order (w : World) :
  (Server.playground_list_pending w).1 = w
  ∧ (queue w = [] →
     (Server.playground_list_pending w).2 = Server.Text "No pending prompts.")
  ∧ (∀ i p, queue w !! i = Some p → toString (pathname p) = None →
     (Server.playground_list_pending w).2 = Server.Throws type_error)
  ∧ (queue w ≠ [] → Forall (fun p => renders (pathname p) = true) (queue w) →
     ∃ lines,
       (Server.playground_list_pending w).2
       = Server.Text ("Pending prompts:" +:+ nl +:+ join nl lines)
       ∧ length lines = length (queue w)
       ∧ ∀ i p, queue w !! i = Some p →
           ∃ path, toString (pathname p) = Some path
           ∧ lines !! i =
             Some (pretty (i + 1)%nat +:+ ". " +:+ path +:+ " (" +:+
                   pretty (String_length (prompt p)) +:+ " chars, " +:+
                   toLocaleTimeString (timestamp p) +:+ ")")).
Proof.
  unfold Server.playground_list_pending, PromptStore.getAll.
  split; [|split; [by intros ->|split]].
  - case_bool_decide; [done|]. by destruct (Server.pending_lines _).
  - intros i p Hi Hnone.
    rewrite bool_decide_eq_false_2 by (apply lookup_lt_Some in Hi; lia).
    destruct (Server.pending_lines (queue w)) as [lines|] eqn:Hl; [|done].
    apply pending_lines_inv in Hl as [_ Hl].
    destruct (Hl i p Hi) as (path & Hpath & _). congruence.
  - intros Hne Hall.
    rewrite bool_decide_eq_false_2 by (by destruct (queue w)).
    destruct (pending_lines_total _ Hall) as [lines Hl]. rewrite Hl. simpl.
    exists lines. split; [done|]. by apply pending_lines_inv.
Qed.

(** X13.  Clear empties the queue whatever it held, reports how many
    records it removed and writes a [done] frame to every subscriber,
    also when the queue was already empty.  A second clear finds
    nothing to remove and publishes [done] again; after a clear
    get-oldest answers that nothing is pending. *)
Theorem clear_then_clear (w : World) :
  let done_frames := frames {| event := "status"; data := status_data "done" |}
                            (sseClients w) in
  let w1 := (Server.playground_clear w).1 in
  w1 = {| queue := []; sseClients := sseClients w; sent := sent w ++ done_frames |}
  ∧ (Server.playground_clear w).2
    = Server.Text (match queue w with
                   | [] => "No prompts to clear."
                   | _ :: _ => "Cleared " +:+ pretty (length (queue w)) +:+ " prompt(s)."
                   end)
  ∧ Server.playground_clear w1
    = ({| queue := []; sseClients := sseClients w;
          sent := sent w ++ done_frames ++ done_frames |},
       Server.Text "No prompts to clear.")
  ∧ Server.playground_get_prompt w1 = (w1, Server.Text Server.no_prompt_text).
Proof.
  cbv zeta.
  assert ((Server.playground_clear w).1
          = {| queue := []; sseClients := sseClients w;
               sent := sent w ++ frames {| event := "status"; data := status_data "done" |}
                                        (sseClients w) |}) as Hw1.
  { unfold Server.playground_clear. simpl. by rewrite broadcastStatus_spec. }
  split; [exact Hw1|]. split.
  - unfold Server.playground_clear, PromptStore.count. simpl.
    destruct (queue w); [done|]. by rewrite bool_decide_eq_true_2 by (simpl; lia).
  - rewrite Hw1. split; [|done].
    unfold Server.playground_clear. simpl. rewrite broadcastStatus_spec. simpl.
    by rewrite <- app_assoc.
Qed.

(** X18.  Get-oldest on a non-empty queue writes a [processing] frame
    to every subscriber and changes nothing else: the queue and its
    count are as before.  When the source of the oldest record (its
    [url], or its [pathname] if the [url] is falsy) can be rendered,
    and in a verbose process its [pathname] too, the call returns the
    heading, that source, the time of receipt and the prompt; when the
    source cannot be rendered it throws.  On an empty queue it answers
    that nothing is pending and changes nothing. *)
Theorem get_prompt_returns_oldest_text (w : World) :
  match queue w with
  | p :: rest =>
      (Server.playground_get_prompt w).1
      = {| queue := p :: rest;
           sseClients := sseClients w;
           sent := sent w ++ frames {| event := "status";
                                       data := status_data "processing" |}
                                    (sseClients w) |}
      ∧ PromptStore.count (queue (Server.playground_get_prompt w).1)
        = PromptStore.count (queue w)
      ∧ (∀ source, toString (Js.or (url p) (pathname p)) = Some source →
           (verbose = true → renders (pathname p) = true) →
           (Server.playground_get_prompt w).2
           = Server.Text ("# Playground Prompt" +:+ nl +:+ nl +:+
                          "**Source:** " +:+ source +:+ nl +:+
                          "**Received:** " +:+ toLocaleTimeString (timestamp p)
                          +:+ nl +:+ nl +:+ "---" +:+ nl +:+ nl +:+ prompt p))
      ∧ (toString (Js.or (url p) (pathname p)) = None →
           (Server.playground_get_prompt w).2 = Server.Throws type_error)
  | [] =>
      Server.playground_get_prompt w = (w, Server.Text Server.no_prompt_text)
  end.
Proof.
  rewrite get_prompt_spec.
  destruct (queue w) as [|p rest] eqn:Hq; [done|]. simpl.
  split; [done|]. split; [done|]. split.
  - intros source Hsource Hlog. apply deliver_text.
    rewrite (delivery_text_intro p Hlog). unfold Server.prompt_text.
    by rewrite Hsource.
  - intros Hnone. apply deliver_throws. unfold Server.delivery_text.
    destruct (verbose && negb (renders (pathname p))); [done|].
    unfold Server.prompt_text. by rewrite Hnone.
Qed.

End ToolCalls.

Section TwoWatchers.
Context `{Runtime}.
Import Concurrent.

(** X19.  Two watch calls wait on a queue that holds exactly one record
    [p]; the event loop resumes them in any order, any number of times,
    each resumption running one poll (test of the loop, check of the
    queue and removal, with no suspension in between).  Then at every
    moment either no call has taken [p], which is still queued, or the
    queue is empty and exactly one call has taken [p] while the other
    is still blocked or has timed out; never have both calls received a
    record.  And when [p] can be rendered and the first resumption
    polls before its call's deadline, one call has returned the text of
    [p] and the other has not. *)
Theorem two_watchers_at_most_once (p : PlaygroundPrompt) (w : World) (dA dB : float)
  (sched : list Resume) :
  queue w = [p] →
  let s := run sched {| callA := Waiting dA; callB := Waiting dB; shared := w |} in
  ((blocked_or_timed_out (callA s) ∧ blocked_or_timed_out (callB s)
    ∧ queue (shared s) = [p])
   ∨ (took (callA s) p ∧ blocked_or_timed_out (callB s) ∧ queue (shared s) = [])
   ∨ (took (callB s) p ∧ blocked_or_timed_out (callA s) ∧ queue (shared s) = []))
  ∧ ¬ (∃ x y, received (callA s) x ∧ received (callB s) y)
  ∧ (∀ first rest text, sched = first :: rest → in_time dA dB first →
       Server.delivery_text p = Some text →
       (callA s = Returned (Server.Text text) ∧ blocked_or_timed_out (callB s))
       ∨ (callB s = Returned (Server.Text text) ∧ blocked_or_timed_out (callA s))).
Proof.
  intros Hq. cbv zeta.
  destruct (two_watchers_shape p w dA dB sched Hq) as [Hs Hgone].
  split; [|split].
  - destruct Hs; tauto.
  - intros (x & y & HA & HB).
    destruct Hs as [HA' _ _|_ HB' _|_ HA' _];
      eauto using took_not_blocked, received_took.
  - intros first rest text Hsched Hin Htext.
    specialize (Hgone first rest Hsched Hin).
    destruct Hs as [_ _ Hq'|HA HB _|HB HA _].
    + rewrite Hgone in Hq'. discriminate.
    + left. split; [by apply (took_received _ p)|done].
    + right. split; [by apply (took_received _ p)|done].
Qed.

End TwoWatchers.

Lemma watch_calls_drain_in_order_witness :
  let t := 1700000000000%float in
  let a := PromptStore.entry Demo.footer (Demo.env 1000 "0.k3j9x2aa") in
  let b := PromptStore.entry Demo.odd_path (Demo.env 1001 "0.zz81kq07") in
  let w := {| queue := [a; b; a]; sseClients := [7%nat]; sent := [] |} in
  let calls := [(Demo.timeout_arg 5%float, t, t); (JUndefined, t, 1700000000010%float)] in
  Forall ServerRun.starts_in_time calls
  ∧ (length calls ≤ length (queue w))%nat
  ∧ (@ServerRun.watch_each Demo.runtime calls w).2
    = [Some (Server.Text
               ("# Playground Prompt" +:+ nl +:+ nl +:+ "**Source:** /design" +:+ nl +:+
                "**Received:** 1000" +:+ nl +:+ nl +:+ "---" +:+ nl +:+ nl +:+
                "add a footer"));
       Some (Server.Throws "Cannot convert object to primitive value")].
Proof.
  intros t a b w calls.
  assert (Forall ServerRun.starts_in_time calls) as Hin.
  { repeat (apply Forall_cons; split; [vm_compute; reflexivity|]). apply Forall_nil_2. }
  assert (length calls ≤ length (queue w))%nat as Hlen by (simpl; lia).
  split; [exact Hin|]. split; [exact Hlen|].
  exact (proj1 (@watch_calls_drain_in_order Demo.runtime calls w Hin Hlen)).
Defined.

Lemma get_prompt_hands_out_again_witness :
  let t := 1700000000000%float in
  let p := PromptStore.entry Demo.footer (Demo.env 1000 "0.k3j9x2aa") in
  let text := "# Playground Prompt" +:+ nl +:+ nl +:+ "**Source:** /design" +:+ nl +:+
              "**Received:** 1000" +:+ nl +:+ nl +:+ "---" +:+ nl +:+ nl +:+
              "add a footer" in
  queue Demo.one_pending = [p]
  ∧ @Server.delivery_text Demo.runtime p = Some text
  ∧ ServerRun.starts_in_time (Demo.timeout_arg 5%float, t, t)
  ∧ (@ServerRun.get_prompt_times Demo.runtime 3 Demo.one_pending).2
    = replicate 3 (Server.Text text).
Proof.
  intros t p text.
  assert (ServerRun.starts_in_time (Demo.timeout_arg 5%float, t, t)) as Hin
    by (vm_compute; reflexivity).
  split; [reflexivity|]. split; [reflexivity|]. split; [exact Hin|].
  exact (proj1 (@get_prompt_hands_out_again Demo.runtime 3 Demo.one_pending p []
                  (Demo.timeout_arg 5%float) t t text eq_refl eq_refl Hin)).
Defined.

Lemma get_prompt_returns_oldest_text_witness :
  @toString Demo.runtime
     (Js.or (url (PromptStore.entry Demo.footer (Demo.env 1000 "0.k3j9x2aa")))
            (pathname (PromptStore.entry Demo.footer (Demo.env 1000 "0.k3j9x2aa"))))
  = Some "/design"
  ∧ (@Server.playground_get_prompt Demo.runtime Demo.one_pending).2
    = Server.Text ("# Playground Prompt" +:+ nl +:+ nl +:+ "**Source:** /design" +:+ nl +:+
                   "**Received:** 1000" +:+ nl +:+ nl +:+ "---" +:+ nl +:+ nl +:+
                   "add a footer").
Proof.
  split; [reflexivity|].
  apply (proj1 (proj2 (proj2 (@get_prompt_returns_oldest_text Demo.runtime
                                 Demo.one_pending))) "/design");
    [reflexivity | discriminate].
Defined.

Lemma health_counts_queued_posts_witness :
  let r := Demo.post Demo.body_odd_path in
  let e := Demo.env 1000 "0.k3j9x2aa" in
  let w1 := (@Server.handle Demo.verbose_runtime 3%nat r e Demo.one_pending).1 in
  method (Demo.get_request "/health") = "GET"
  ∧ @route Demo.verbose_runtime (Demo.get_request "/health") = Some "/health"
  ∧ (@Server.handle Demo.verbose_runtime 3%nat r e Demo.one_pending).2
    = error_reply "Invalid JSON"
  ∧ @Server.handle Demo.verbose_runtime 4%nat (Demo.get_request "/health") e w1
    = (w1, Reply 200 (Some (JObj [("status", JStr "ok");
                                  ("pending_prompts", JNum 2%float)]))).
Proof.
  intros r e w1. split; [reflexivity|]. split; [reflexivity|]. split; [reflexivity|].
  assert ((@Server.handle Demo.verbose_runtime 3%nat r e Demo.one_pending).2 ≠ Crash)
    as Hup by (vm_compute; discriminate).
  exact (proj1 (@health_counts_queued_posts Demo.verbose_runtime 3%nat 4%nat r
                  (Demo.get_request "/health") e e Demo.one_pending
                  eq_refl eq_refl Hup)).
Defined.

Lemma list_pending_lists_in_order_witness :
  let a := PromptStore.entry Demo.footer (Demo.env 1000 "0.k3j9x2aa") in
  let b := PromptStore.entry Demo.header (Demo.env 1001 "0.zz81kq07") in
  let w := {| queue := [a; b]; sseClients := [7%nat]; sent := [] |} in
  queue w ≠ []
  ∧ Forall (fun p => @renders Demo.runtime (pathname p) = true) (queue w)
  ∧ ∃ lines,
      (@Server.playground_list_pending Demo.runtime w).2
      = Server.Text ("Pending prompts:" +:+ nl +:+ join nl lines)
      ∧ length lines = 2%nat.
Proof.
  intros a b w.
  assert (queue w ≠ []) as Hne by discriminate.
  assert (Forall (fun p => @renders Demo.runtime (pathname p) = true) (queue w)) as Hall.
  { repeat (apply Forall_cons; split; [reflexivity|]). apply Forall_nil_2. }
  split; [exact Hne|]. split; [exact Hall|].
  destruct (proj2 (proj2 (proj2 (@list_pending_lists_in_order Demo.runtime w))) Hne Hall)
    as (lines & Htext & Hlen & _).
  exists lines. split; [exact Htext | exact Hlen].
Defined.

(** The listing of those two records, evaluated; and the listing of a
    queue that holds a record whose [pathname] cannot be rendered. *)
Example list_pending_example :
  let a := PromptStore.entry Demo.footer (Demo.env 1000 "0.k3j9x2aa") in
  let b := PromptStore.entry Demo.header (Demo.env 1001 "0.zz81kq07") in
  (@Server.playground_list_pending Demo.runtime
     {| queue := [a; b]; sseClients := [7%nat]; sent := [] |}).2
  = Server.Text ("Pending prompts:" +:+ nl +:+
                 "1. /design (12 chars, 1000)" +:+ nl +:+
                 "2. /cards.html (20 chars, 1001)")
  ∧ (@Server.playground_list_pending Demo.runtime Demo.odd_pending).2
    = Server.Throws "Cannot convert object to primitive value".
Proof. vm_compute. done. Qed.

Lemma two_watchers_at_most_once_witness :
  let p := PromptStore.entry Demo.footer (Demo.env 1000 "0.k3j9x2aa") in
  let s := @Concurrent.run Demo.runtime
             [Concurrent.ResumeB 1700000000000%float;
              Concurrent.ResumeA 1700000000000%float;
              Concurrent.ResumeB 1700000001000%float]
             {| Concurrent.callA := Concurrent.Waiting 1700000005000%float;
                Concurrent.callB := Concurrent.Waiting 1700000005000%float;
                Concurrent.shared := Demo.one_pending |} in
  queue Demo.one_pending = [p] ∧
  ¬ (∃ x y, @Concurrent.received Demo.runtime (Concurrent.callA s) x
            ∧ @Concurrent.received Demo.runtime (Concurrent.callB s) y).
Proof.
  intros p s. split; [reflexivity|].
  exact (proj1 (proj2 (@two_watchers_at_most_once Demo.runtime p Demo.one_pending
                         1700000005000%float 1700000005000%float
                         [Concurrent.ResumeB 1700000000000%float;
                          Concurrent.ResumeA 1700000000000%float;
                          Concurrent.ResumeB 1700000001000%float] eq_refl))).
Defined.

(** ** Turns and iterations of the batch server *)

Section BurstTurns.
Context `{Runtime}.
Import Burst BurstRun.

Lemma no_acks (w : World) :
  ∃ acks, sent w = sent w ++ acks ∧ only_connected acks.
Proof. exists []. split; [by rewrite app_nil_r | apply Forall_nil_2]. Qed.

(** An HTTP turn in batch mode writes at most the acknowledgement of a
    subscription. *)
Lemma burst_turn_sent w t :
  ∃ acks, sent (run_turn w t) = sent w ++ acks ∧ only_connected acks.
Proof.
  unfold run_turn.
  destruct (burst_turn_spec w t) as [-> | [[c ->] | [[c ->] | [x ->]]]]; simpl;
    try apply no_acks.
  eexists. split; [done|]. by apply Forall_singleton.
Qed.

Lemma burst_turns_sent ts : ∀ w,
  ∃ acks, sent (run_turns ts w) = sent w ++ acks ∧ only_connected acks.
Proof.
  induction ts as [|t ts IH]; intros w; simpl; [apply no_acks|].
  destruct (burst_turn_sent w t) as (a1 & H1 & Ha1).
  destruct (IH (run_turn w t)) as (a2 & H2 & Ha2).
  exists (a1 ++ a2). split; [by rewrite H2, H1, <- app_assoc|].
  by apply Forall_app.
Qed.

Lemma countdown_sent sleeps i : ∀ w,
  ∃ acks, sent (countdown i sleeps w).1 = sent w ++ acks ∧ only_connected acks.
Proof.
  induction i as [|i IH]; intros w; simpl; [apply no_acks|].
  destruct (burst_turns_sent (sleeps (S i)) w) as (a1 & H1 & Ha1).
  destruct (survives (sleeps (S i)) w); [|by exists a1].
  destruct (IH (run_turns (sleeps (S i)) w)) as (a2 & H2 & Ha2).
  exists (a1 ++ a2). split; [by rewrite H2, H1, <- app_assoc|].
  by apply Forall_app.
Qed.

(** X14.  In batch mode the HTTP side never removes or reorders a
    record and never publishes a status: across any run of requests and
    stream closes the queue only grows at its back, and the only frames
    written are acknowledgements of new subscriptions. *)
Theorem burst_http_only_appends (ts : list Turn) (w : World) :
  queue w `prefix_of` queue (run_turns ts w)
  ∧ ∃ acks, sent (run_turns ts w) = sent w ++ acks ∧ only_connected acks.
Proof. split; [apply burst_turns_queue | apply burst_turns_sent]. Qed.

(** X15.  Prompts that arrive while the external command runs are lost.
    Take an iteration that finds prompts, builds the combined prompt of
    its snapshot and starts the command, the process staying up
    throughout: the command was given the snapshot taken before it
    started, and the clear that follows its end empties the queue, the
    late arrivals included.  So whatever is posted during the run
    changes neither the invocation nor the (empty) queue the iteration
    leaves. *)
Theorem prompts_during_run_are_dropped (claude_path : option string)
  (env : IterEnv) (during : list Turn) (w : World) (text : string) :
  queue w ≠ [] →
  (window_end env w).2 = true →
  fullPrompt (snapshot env w) = Some text →
  spawn_throws env = false →
  survives during (at_spawn env w) = true →
  let r := batch claude_path (with_during_run during env) w in
  spawned r = [spawn_claude claude_path text]
  ∧ snapshot env w `prefix_of` queue (after_run (with_during_run during env) w)
  ∧ queue (world r) = [].
Proof.
  intros Hq Hup Htext Hspawn Hrun. cbv zeta.
  rewrite (batch_spec claude_path (with_during_run during env) w text) by done.
  simpl. split; [done|]. split; [|done].
  unfold after_run, at_spawn, snapshot, PromptStore.getAll. simpl.
  etrans; [|apply burst_turns_queue].
  rewrite (broadcastStatus_spec "processing"). simpl. reflexivity.
Qed.

(** What has been written when the window closes, when the command is
    started and when it has ended. *)
Lemma window_end_sent (env : IterEnv) (w : World) :
  ∃ acks,
    sent (window_end env w).1
    = sent w
      ++ frames {| event := "status"; data := status_data "collecting" |} (sseClients w)
      ++ acks
    ∧ only_connected acks.
Proof.
  destruct (countdown_sent (window env) 10 (broadcastStatus "collecting" w))
    as (acks & Hs & Ha).
  exists acks. split; [|done]. unfold window_end. rewrite Hs.
  rewrite broadcastStatus_spec. simpl. by rewrite <- app_assoc.
Qed.

Lemma at_spawn_sent (env : IterEnv) (w : World) :
  sent (at_spawn env w)
  = sent (window_end env w).1
    ++ frames {| event := "status"; data := status_data "processing" |}
              (sseClients (window_end env w).1).
Proof. unfold at_spawn. by rewrite broadcastStatus_spec. Qed.

Lemma after_run_sent (env : IterEnv) (w : World) :
  ∃ acks1 acks2,
    sent (after_run env w)
    = sent w
      ++ frames {| event := "status"; data := status_data "collecting" |} (sseClients w)
      ++ acks1
      ++ frames {| event := "status"; data := status_data "processing" |}
                (sseClients (window_end env w).1)
      ++ acks2
    ∧ only_connected acks1 ∧ only_connected acks2.
Proof.
  destruct (window_end_sent env w) as (acks1 & H1 & Ha1).
  destruct (burst_turns_sent (during_run env) (at_spawn env w)) as (acks2 & H2 & Ha2).
  fold (after_run env w) in H2.
  exists acks1, acks2. split; [|done].
  rewrite H2, at_spawn_sent, H1. by rewrite <- !app_assoc.
Qed.

(** X16.  An iteration that finds prompts, builds the combined prompt
    of its snapshot and starts the command, the process staying up
    throughout, publishes its statuses in the order [collecting],
    [processing], [done], [ready], each to the subscribers of that
    moment; the only other frames written meanwhile are
    acknowledgements of subscriptions made during the window and
    during the run. *)
Theorem batch_status_order (claude_path : option string) (env : IterEnv) (w : World)
  (text : string) :
  queue w ≠ [] →
  (window_end env w).2 = true →
  fullPrompt (snapshot env w) = Some text →
  spawn_throws env = false →
  survives (during_run env) (at_spawn env w) = true →
  let status s := {| event := "status"; data := status_data s |} in
  let w1 := (window_end env w).1 in
  let w2 := after_run env w in
  ∃ acks1 acks2,
    sent (world (batch claude_path env w))
    = sent w ++ frames (status "collecting") (sseClients w) ++ acks1
      ++ frames (status "processing") (sseClients w1) ++ acks2
      ++ frames (status "done") (sseClients w2)
      ++ frames (status "ready") (sseClients w2)
    ∧ only_connected acks1 ∧ only_connected acks2.
Proof.
  intros Hq Hup Htext Hspawn Hrun. cbv zeta.
  rewrite (batch_spec claude_path env w text) by done. simpl.
  destruct (after_run_sent env w) as (acks1 & acks2 & Hs & Ha1 & Ha2).
  exists acks1, acks2. split; [|done].
  rewrite Hs. by rewrite <- !app_assoc.
Qed.

Lemma only_connected_burst_frames acks :
  only_connected acks → Forall (fun f => burst_frame f.2) acks.
Proof.
  unfold only_connected. intros Hacks.
  apply (Forall_impl _ _ _ Hacks). intros f Hf. by left.
Qed.

Lemma status_burst_frames s cs :
  s = "collecting" ∨ s = "processing" ∨ s = "done" ∨ s = "ready" →
  Forall (fun f => burst_frame f.2)
         (frames {| event := "status"; data := status_data s |} cs).
Proof.
  intros Hs. unfold frames. apply Forall_forall. intros f Hf.
  apply list_elem_of_fmap in Hf as (c & -> & _). right. by exists s.
Qed.

(** The frames and the processes of the body of the loop, however it
    ends. *)
Lemma batch_frames claude_path env w :
  ∃ later, sent (world (batch claude_path env w)) = sent w ++ later
           ∧ Forall (fun f => burst_frame f.2) later
           ∧ (length (spawned (batch claude_path env w)) ≤ 1)%nat
           ∧ (queue w = [] → spawned (batch claude_path env w) = []).
Proof.
  destruct (queue w) as [|p rest] eqn:Hq.
  - assert (batch claude_path env w
            = {| world := w; spawned := []; results := []; running := true |}) as Hb.
    { unfold batch, PromptStore.count. by rewrite Hq. }
    rewrite Hb. simpl. exists []. rewrite app_nil_r.
    split; [done|]. split; [apply Forall_nil_2|]. split; [lia|done].
  - assert (queue w ≠ []) as Hne by (by rewrite Hq).
    destruct (window_end_sent env w) as (a1 & H1 & Ha1).
    destruct (after_run_sent env w) as (b1 & b2 & H2 & Hb1 & Hb2).
    pose proof (at_spawn_sent env w) as H3. rewrite H1 in H3.
    rewrite batch_reaches_spawn by done.
    destruct (window_end env w).2; simpl.
    2:{ eexists. split; [exact H1|]. split; [|split; [lia|done]].
        apply Forall_app; split;
          auto using only_connected_burst_frames, status_burst_frames. }
    assert (∃ later, sent (at_spawn env w) = sent w ++ later
                     ∧ Forall (fun f => burst_frame f.2) later) as Hat.
    { eexists. split; [by rewrite H3, <- !app_assoc|].
      repeat (apply Forall_app; split);
        auto using only_connected_burst_frames, status_burst_frames. }
    assert (∃ later, sent (after_run env w) = sent w ++ later
                     ∧ Forall (fun f => burst_frame f.2) later) as Hafter.
    { eexists. split; [exact H2|].
      repeat (apply Forall_app; split);
        auto using only_connected_burst_frames, status_burst_frames. }
    destruct (fullPrompt (snapshot env w)) as [text|]; simpl.
    2:{ destruct Hat as (later & Hl & Hf). exists later.
        split; [done|]. split; [done|]. split; [lia|done]. }
    destruct (spawn_throws env); simpl.
    { destruct Hat as (later & Hl & Hf). exists later.
      split; [done|]. split; [done|]. split; [lia|done]. }
    destruct (survives (during_run env) (at_spawn env w)); simpl.
    2:{ destruct Hafter as (later & Hl & Hf). exists later.
        split; [done|]. split; [done|]. split; [lia|done]. }
    destruct Hafter as (later & Hl & Hf). rewrite Hl.
    eexists. split; [by rewrite <- !app_assoc|]. split; [|split; [lia|done]].
    repeat (apply Forall_app; split); auto using status_burst_frames.
Qed.

Lemma iteration_frames claude_path env w :
  ∃ later, sent (world (iteration claude_path env w)) = sent w ++ later
           ∧ Forall (fun f => burst_frame f.2) later
           ∧ (length (spawned (iteration claude_path env w)) ≤ 1)%nat
           ∧ (queue w = [] → spawned (iteration claude_path env w) = []).
Proof.
  destruct (batch_frames claude_path env w) as (l1 & H1 & Hf1 & Hone & Hnone).
  unfold iteration.
  destruct (running (batch claude_path env w)); simpl; [|by exists l1].
  destruct (burst_turns_sent (poll_sleep env) (world (batch claude_path env w)))
    as (acks & H2 & Ha).
  exists (l1 ++ acks). split; [by rewrite H2, H1, <- app_assoc|].
  split; [|done].
  apply Forall_app; split; auto using only_connected_burst_frames.
Qed.

Lemma burstLoop_cons claude_path env envs w :
  burstLoop claude_path (env :: envs) w =
  if running (iteration claude_path env w) then
    {| world := world (burstLoop claude_path envs (world (iteration claude_path env w)));
       spawned := spawned (iteration claude_path env w)
                  ++ spawned (burstLoop claude_path envs
                                (world (iteration claude_path env w)));
       results := results (iteration claude_path env w)
                  ++ results (burstLoop claude_path envs
                                (world (iteration claude_path env w)));
       running := running (burstLoop claude_path envs
                             (world (iteration claude_path env w))) |}
  else iteration claude_path env w.
Proof. done. Qed.

(** X17.  However long the batch loop runs, it spawns at most one
    process per iteration, none in an iteration that finds the queue
    empty, and the frames it writes are acknowledgements of
    subscriptions and the statuses [collecting], [processing], [done]
    and [ready]: batch mode never publishes [received]. *)
Theorem burst_loop_vocabulary (claude_path : option string) (envs : list IterEnv)
  (w : World) :
  (length (spawned (burstLoop claude_path envs w)) ≤ length envs)%nat
  ∧ (∃ later, sent (world (burstLoop claude_path envs w)) = sent w ++ later
              ∧ Forall (fun f => burst_frame f.2) later)
  ∧ (∀ env, queue w = [] → spawned (iteration claude_path env w) = []).
Proof.
  split; [|split].
  - revert w. induction envs as [|env envs IH]; intros w; [simpl; lia|].
    rewrite burstLoop_cons.
    destruct (iteration_frames claude_path env w) as (_ & _ & _ & Hone & _).
    change (length (env :: envs)) with (S (length envs)).
    destruct (running (iteration claude_path env w)); simpl; [|lia].
    rewrite length_app.
    specialize (IH (world (iteration claude_path env w))). lia.
  - revert w. induction envs as [|env envs IH]; intros w.
    + exists []. simpl. by rewrite app_nil_r.
    + rewrite burstLoop_cons.
      destruct (iteration_frames claude_path env w) as (l1 & H1 & Hf1 & _).
      destruct (running (iteration claude_path env w)); simpl; [|by exists l1].
      destruct (IH (world (iteration claude_path env w))) as (l2 & H2 & Hf2).
      exists (l1 ++ l2). split; [by rewrite H2, H1, <- app_assoc|].
      by apply Forall_app.
  - intros env Hq.
    by destruct (iteration_frames claude_path env w) as (_ & _ & _ & _ & Hnone); auto.
Qed.

(** X20.  Take an iteration of the batch loop that finds prompts,
    builds the combined prompt of its snapshot and gets a child process
    from [spawn], the process staying up until the child has ended.
    Whatever event ends the child (exit status zero, non-zero, killed,
    or the [error] event of a command that could not be started), the
    iteration has invoked the command once, empties the queue and
    writes a [done] frame and then a [ready] frame to every subscriber;
    the world it leaves does not depend on that event; and the loop
    goes on: if the process outlives the closing sleep, the remaining
    iterations run from the world that sleep leaves. *)
Theorem batch_clears_after_any_child_end (claude_path : option string)
  (env : IterEnv) (envs : list IterEnv) (w : World) (ev : ChildEvent) (text : string) :
  queue w ≠ [] →
  (window_end env w).2 = true →
  fullPrompt (snapshot env w) = Some text →
  spawn_throws env = false →
  survives (during_run env) (at_spawn env w) = true →
  let r := batch claude_path (with_child ev env) w in
  let next := run_turns (poll_sleep env) (world r) in
  spawned r = [spawn_claude claude_path text]
  ∧ queue (world r) = []
  ∧ sent (world r) =
      sent (after_run env w)
      ++ frames {| event := "status"; data := status_data "done" |}
                (sseClients (after_run env w))
      ++ frames {| event := "status"; data := status_data "ready" |}
                (sseClients (after_run env w))
  ∧ world r = world (batch claude_path env w)
  ∧ results r = [success ev]
  ∧ running r = true
  ∧ (survives (poll_sleep env) (world r) = true →
     world (burstLoop claude_path (with_child ev env :: envs) w)
     = world (burstLoop claude_path envs next)
     ∧ spawned (burstLoop claude_path (with_child ev env :: envs) w)
       = spawned r ++ spawned (burstLoop claude_path envs next)
     ∧ running (burstLoop claude_path (with_child ev env :: envs) w)
       = running (burstLoop claude_path envs next)).
Proof.
  intros Hq Hup Htext Hspawn Hrun. cbv zeta.
  rewrite burstLoop_cons. unfold iteration.
  rewrite (batch_spec claude_path (with_child ev env) w text),
    (batch_spec claude_path env w text) by done.
  simpl. repeat (split; [done|]).
  intros Hsleep. by rewrite Hsleep.
Qed.


End BurstTurns.

Lemma prompts_during_run_are_dropped_witness :
  let late := Burst.THttp 5%nat (Demo.post Demo.body_header) (Demo.env 9000 "0.zz81kq07") in
  let text := "You have received 2 prompt(s) from playground files. Process each one:"
              +:+ nl +:+ nl +:+
              "## Prompt 1 (from /design)" +:+ nl +:+ nl +:+ "add a footer"
              +:+ nl +:+ nl +:+ "---" +:+ nl +:+ nl +:+
              "## Prompt 2 (from /cards.html)" +:+ nl +:+ nl +:+ "make the header blue" in
  let r := @Burst.batch Demo.runtime None
             (BurstRun.with_during_run [late] Demo.burst_env) Demo.one_pending in
  queue Demo.one_pending ≠ []
  ∧ (@Burst.window_end Demo.runtime Demo.burst_env Demo.one_pending).2 = true
  ∧ @Burst.fullPrompt Demo.runtime
      (@Burst.snapshot Demo.runtime Demo.burst_env Demo.one_pending) = Some text
  ∧ Burst.spawn_throws Demo.burst_env = false
  ∧ @Burst.survives Demo.runtime [late]
      (@Burst.at_spawn Demo.runtime Demo.burst_env Demo.one_pending) = true
  ∧ Burst.spawned r = [Burst.spawn_claude None text]
  ∧ queue (Burst.world r) = [].
Proof.
  intros late text r.
  assert (queue Demo.one_pending ≠ []) as Hq by (vm_compute; discriminate).
  pose proof (@prompts_during_run_are_dropped Demo.runtime None Demo.burst_env [late]
                Demo.one_pending text Hq eq_refl eq_refl eq_refl eq_refl)
    as (Hspawn & _ & Hempty).
  split; [exact Hq|]. do 4 (split; [reflexivity|]).
  split; [exact Hspawn | exact Hempty].
Defined.

Lemma batch_status_order_witness :
  let text := "You have received 2 prompt(s) from playground files. Process each one:"
              +:+ nl +:+ nl +:+
              "## Prompt 1 (from /design)" +:+ nl +:+ nl +:+ "add a footer"
              +:+ nl +:+ nl +:+ "---" +:+ nl +:+ nl +:+
              "## Prompt 2 (from /cards.html)" +:+ nl +:+ nl +:+ "make the header blue" in
  queue Demo.one_pending ≠ []
  ∧ @Burst.fullPrompt Demo.runtime
      (@Burst.snapshot Demo.runtime Demo.burst_env Demo.one_pending) = Some text
  ∧ ∃ acks1 acks2,
      sent (Burst.world (@Burst.batch Demo.runtime None Demo.burst_env Demo.one_pending))
      = sent Demo.one_pending
        ++ frames {| event := "status"; data := status_data "collecting" |} [7%nat]
        ++ acks1
        ++ frames {| event := "status"; data := status_data "processing" |} [7%nat]
        ++ acks2
        ++ frames {| event := "status"; data := status_data "done" |} [7%nat]
        ++ frames {| event := "status"; data := status_data "ready" |} [7%nat]
      ∧ BurstRun.only_connected acks1 ∧ BurstRun.only_connected acks2.
Proof.
  intros text.
  assert (queue Demo.one_pending ≠ []) as Hq by (vm_compute; discriminate).
  split; [exact Hq|]. split; [reflexivity|].
  exact (@batch_status_order Demo.runtime None Demo.burst_env Demo.one_pending text
           Hq eq_refl eq_refl eq_refl eq_refl).
Defined.

(** A prompt posted while the command runs, evaluated: the command is
    given the one prompt queued before, and the queue is empty after. *)
Example prompts_during_run_example :
  let late := Burst.THttp 5%nat (Demo.post Demo.body_header) (Demo.env 9000 "0.zz81kq07") in
  let quiet := {| Burst.window _ := []; Burst.spawn_throws := false;
                  Burst.during_run := [late];
                  Burst.child := Burst.ChildClose (Some 0); Burst.poll_sleep := [] |} in
  let r := @Burst.batch Demo.runtime None quiet Demo.one_pending in
  queue (@Burst.after_run Demo.runtime quiet Demo.one_pending)
  = [PromptStore.entry Demo.footer (Demo.env 1000 "0.k3j9x2aa");
     PromptStore.entry Demo.header (Demo.env 9000 "0.zz81kq07")]
  ∧ last (Burst.arguments (default (Burst.spawn_claude None EmptyString)
                                   (head (Burst.spawned r))))
    = Some ("You have received 1 prompt(s) from playground files. Process each one:"
            +:+ nl +:+ nl +:+ "## Prompt 1 (from /design)" +:+ nl +:+ nl +:+ "add a footer")
  ∧ queue (Burst.world r) = [].
Proof. vm_compute. done. Qed.

Lemma burst_loop_vocabulary_witness :
  queue Demo.idle = []
  ∧ Burst.spawned (@Burst.iteration Demo.runtime None Demo.burst_env Demo.idle) = [].
Proof.
  split; [reflexivity|].
  exact (proj2 (proj2 (@burst_loop_vocabulary Demo.runtime None [] Demo.idle))
           Demo.burst_env eq_refl).
Defined.

Lemma batch_clears_after_any_child_end_witness :
  let text := "You have received 2 prompt(s) from playground files. Process each one:"
              +:+ nl +:+ nl +:+
              "## Prompt 1 (from /design)" +:+ nl +:+ nl +:+ "add a footer"
              +:+ nl +:+ nl +:+ "---" +:+ nl +:+ nl +:+
              "## Prompt 2 (from /cards.html)" +:+ nl +:+ nl +:+ "make the header blue" in
  let r := @Burst.batch Demo.runtime None
             (Burst.with_child (Burst.ChildClose (Some 1)) Demo.burst_env)
             Demo.one_pending in
  queue Demo.one_pending ≠ []
  ∧ @Burst.fullPrompt Demo.runtime
      (@Burst.snapshot Demo.runtime Demo.burst_env Demo.one_pending) = Some text
  ∧ Burst.spawned r = [Burst.spawn_claude None text]
  ∧ queue (Burst.world r) = []
  ∧ Burst.world r
    = Burst.world (@Burst.batch Demo.runtime None Demo.burst_env Demo.one_pending)
  ∧ Burst.results r = [false].
Proof.
  intros text r.
  assert (queue Demo.one_pending ≠ []) as Hq by (vm_compute; discriminate).
  pose proof (@batch_clears_after_any_child_end Demo.runtime None Demo.burst_env []
                Demo.one_pending (Burst.ChildClose (Some 1)) text
                Hq eq_refl eq_refl eq_refl eq_refl)
    as (Hspawn & Hempty & _ & Hsame & Hres & _).
  split; [exact Hq|]. split; [reflexivity|]. split; [exact Hspawn|].
  split; [exact Hempty|]. split; [exact Hsame | exact Hres].
Defined.

